(** * Fixed-rate mortgage calculations: a shallow embedding of [mortgage.py]

    The Python module computes a minimum level payment ([get_min_payment]),
    the interest due in one period ([interest_due]), the number of payments
    needed to retire a balance ([remaining_payments]), a report ([main]) and
    a command-line front end ([parse_args] and the [__main__] block).

    The functions are embedded once, over an interface [PyFloat] that gives
    the meaning of Python's [float] operations.  Two implementations of the
    interface are given:
    - [binary64_with]: IEEE 754 double precision, which is what CPython runs,
      for every C library whose [pow] it may be built on; [binary64] is the
      one with a correctly rounded [pow];
    - [exact]: the rationals, that is the arithmetic without any rounding.
    Python's [int] is [Z].  Exceptions are explicit results, and the [while]
    loop of [remaining_payments] is driven by a step budget. *)

From Stdlib Require Import ZArith QArith Qround Qpower Bool List String Lia Lqa.
From Stdlib Require Import SpecFloat.
Import ListNotations.

Local Open Scope Z_scope.

(** ** Results of running Python code *)

(** The exceptions the module can raise.  [SystemExit] is what [argparse]
    raises on a malformed command line. *)
Inductive exn : Type :=
| ZeroDivisionError
| OverflowError
| ValueError (msg : string)
| SystemExit (code : Z) (msg : string).

(** A call either returns a value, raises, or is still running when the step
    budget of the enclosing loop is used up. *)
Inductive res (A : Type) : Type :=
| Ret (a : A)
| Raise (e : exn)
| OutOfFuel.

Arguments Ret {A} a.
Arguments Raise {A} e.
Arguments OutOfFuel {A}.

Definition bind {A B : Type} (c : res A) (k : A -> res B) : res B :=
  match c with
  | Ret a => k a
  | Raise e => Raise e
  | OutOfFuel => OutOfFuel
  end.

Notation "x <- c ;; k" := (bind c (fun x => k))
  (at level 61, c at next level, right associativity).

(** ** The data of the module

    The types below are parameterised by the type [F] of floats. *)

(** A number that is either an [int] or a [float]: the target payment is a
    [float] when it comes from the command line and the [int] minimum
    payment when it was absent. *)
Inductive pynum (F : Type) : Type :=
| PInt (z : Z)
| PFloat (x : F).

Arguments PInt {F} z.
Arguments PFloat {F} x.

(** The lines [main] writes to standard output:
    - [MinimumPayment m] is "Minimum Payment: $m";
    - [TargetTooLow] is "Your target payment is less than the minimum payment
      for this mortgage.";
    - [Payoff t k] is "If you make payments of $t, you will pay off the
      mortgage in k payments.". *)
Inductive line (F : Type) : Type :=
| MinimumPayment (min_payment : Z)
| TargetTooLow
| Payoff (target_payment : pynum F) (total_payments : Z).

Arguments MinimumPayment {F} min_payment.
Arguments TargetTooLow {F}.
Arguments Payoff {F} target_payment total_payments.

(** What [main] does that can be observed: the lines it prints and, recorded
    for the claims about it, each call of [remaining_payments] with its
    arguments. *)
Inductive event (F : Type) : Type :=
| Print (l : line F)
| Call_remaining_payments (balance_of_mortgage annual_interest_rate : F)
    (target_payment : pynum F) (num_of_payments : Z).

Arguments Print {F} l.
Arguments Call_remaining_payments {F} balance_of_mortgage annual_interest_rate
  target_payment num_of_payments.

(** The attributes of the namespace [argparse] returns: two positional
    [float]s, [--years] and [--num_annual_payments] of type [int] (defaults 30
    and 12) and the optional [float] [--target_payment] (default [None]). *)
Record namespace (F : Type) : Type := Namespace {
  mortgage_amount : F;
  annual_interest_rate : F;
  years : Z;
  num_annual_payments : Z;
  target_payment : option F
}.

Arguments Namespace {F} mortgage_amount annual_interest_rate years
  num_annual_payments target_payment.
Arguments mortgage_amount {F} n.
Arguments annual_interest_rate {F} n.
Arguments years {F} n.
Arguments num_annual_payments {F} n.
Arguments target_payment {F} n.

(** What the process leaves behind: the report lines on standard output, and
    on standard error either the message given to [sys.exit] or the
    traceback of an exception nobody caught; and its exit status, if it
    ended. *)
Inductive stderr_line : Type :=
| Message (msg : string)
| Traceback (e : exn).

Inductive status : Type :=
| Exited (code : Z)
| Running.

Record process (F : Type) : Type := Process {
  stdout : list (line F);
  stderr : list stderr_line;
  exit_status : status
}.

Arguments Process {F} stdout stderr exit_status.
Arguments stdout {F} p.
Arguments stderr {F} p.
Arguments exit_status {F} p.

(** ** The meaning of [float] *)

(** What the module needs from Python's [float]: the implicit conversion from
    [int], the four operations, [float ** int], [math.ceil], the comparison
    with an [int] (exact in Python, [None] when unordered) and truthiness. *)
Class PyFloat : Type := {
  float : Type;
  float_of_int : Z -> res float;
  float_add : float -> float -> float;
  float_sub : float -> float -> float;
  float_mul : float -> float -> float;
  float_div : float -> float -> res float;
  float_pow_int : float -> Z -> res float;
  math_ceil : float -> res Z;
  float_cmp_int : float -> Z -> option comparison;
  float_bool : float -> bool
}.

Section Mortgage.

Context {PF : PyFloat}.

(** [x < z], [x > z], [x <= z] and [z <= x] for a float [x] and an int [z]. *)
Definition float_lt_int (x : float) (z : Z) : bool :=
  match float_cmp_int x z with Some Lt => true | _ => false end.

Definition float_gt_int (x : float) (z : Z) : bool :=
  match float_cmp_int x z with Some Gt => true | _ => false end.

Definition float_le_int (x : float) (z : Z) : bool :=
  match float_cmp_int x z with Some Lt | Some Eq => true | _ => false end.

Definition int_le_float (z : Z) (x : float) : bool :=
  match float_cmp_int x z with Some Gt | Some Eq => true | _ => false end.

(** Mixed arithmetic converts the [int] operand first. *)
Definition float_div_int (x : float) (z : Z) : res float :=
  y <- float_of_int z ;; float_div x y.

Definition int_add_float (z : Z) (x : float) : res float :=
  y <- float_of_int z ;; Ret (float_add y x).

Definition float_sub_int (x : float) (z : Z) : res float :=
  y <- float_of_int z ;; Ret (float_sub x y).

Definition pynum_lt_int (a : pynum float) (z : Z) : bool :=
  match a with
  | PInt a => a <? z
  | PFloat x => float_lt_int x z
  end.

Definition pynum_sub_float (a : pynum float) (x : float) : res float :=
  match a with
  | PInt a => y <- float_of_int a ;; Ret (float_sub y x)
  | PFloat y => Ret (float_sub y x)
  end.

(** *** [get_min_payment] (lines 29-35)
<<
    P = principal
    r = annual_interest_rate / num_of_payments
    n = term * num_of_payments
    A = P * (r*(1+r)**n) / (((1 + r) ** n) - 1)
    min_payment = math.ceil(A)
    return min_payment
>> *)
Definition get_min_payment (principal annual_interest_rate : float)
    (term num_of_payments : Z) : res Z :=
  let P := principal in
  r <- float_div_int annual_interest_rate num_of_payments ;;
  let n := term * num_of_payments in
  base1 <- int_add_float 1 r ;;
  pow1 <- float_pow_int base1 n ;;
  let numerator := float_mul P (float_mul r pow1) in
  base2 <- int_add_float 1 r ;;
  pow2 <- float_pow_int base2 n ;;
  denominator <- float_sub_int pow2 1 ;;
  A <- float_div numerator denominator ;;
  min_payment <- math_ceil A ;;
  Ret min_payment.

(** *** [interest_due] (lines 52-55)
<<
    b = balance_of_mortgage
    r = annual_interest_rate / num_of_payments
    i = b * r
    return i
>> *)
Definition interest_due (balance_of_mortgage annual_interest_rate : float)
    (num_of_payments : Z) : res float :=
  let b := balance_of_mortgage in
  r <- float_div_int annual_interest_rate num_of_payments ;;
  let i := float_mul b r in
  Ret i.

(** *** [remaining_payments] (lines 73-80)
<<
    payments = 0
    while balance_of_mortgage > 0:
        interest = interest_due(balance_of_mortgage, annual_interest_rate,
                                num_of_payments)
        principal_payment = target_payment - interest
        balance_of_mortgage -= principal_payment
        payments += 1
    return payments
>>
    The loop test comes first; one unit of [fuel] is spent on each execution
    of the body, so that [fuel] bounds the number of iterations (and of calls
    of [interest_due]) and a result obtained with [fuel = 0] was obtained
    without entering the body. *)
Fixpoint payoff_loop (annual_interest_rate : float) (target_payment : pynum float)
    (num_of_payments : Z) (fuel : nat) (balance_of_mortgage : float)
    (payments : Z) {struct fuel} : res Z :=
  if float_gt_int balance_of_mortgage 0 then
    match fuel with
    | O => OutOfFuel
    | S fuel' =>
        interest <- interest_due balance_of_mortgage annual_interest_rate
                      num_of_payments ;;
        principal_payment <- pynum_sub_float target_payment interest ;;
        payoff_loop annual_interest_rate target_payment num_of_payments fuel'
          (float_sub balance_of_mortgage principal_payment) (payments + 1)
    end
  else Ret payments.

Definition remaining_payments (fuel : nat)
    (balance_of_mortgage annual_interest_rate : float)
    (target_payment : pynum float) (num_of_payments : Z) : res Z :=
  payoff_loop annual_interest_rate target_payment num_of_payments fuel
    balance_of_mortgage 0.

(** The principal portion of one payment against a balance: the two
    assignments [interest = ...] and [principal_payment = ...] of the loop
    body. *)
Definition principal_portion (annual_interest_rate : float)
    (target_payment : pynum float) (num_of_payments : Z)
    (balance_of_mortgage : float) : res float :=
  interest <- interest_due balance_of_mortgage annual_interest_rate
                num_of_payments ;;
  pynum_sub_float target_payment interest.

(** One execution of the loop body, as a function on the balance. *)
Definition payoff_step (annual_interest_rate : float) (target_payment : pynum float)
    (num_of_payments : Z) (balance_of_mortgage : float) : res float :=
  principal_payment <- principal_portion annual_interest_rate target_payment
                         num_of_payments balance_of_mortgage ;;
  Ret (float_sub balance_of_mortgage principal_payment).

(** The balance after [k] executions of the body, the loop test set aside. *)
Fixpoint balance_after (annual_interest_rate : float) (target_payment : pynum float)
    (num_of_payments : Z) (balance_of_mortgage : float) (k : nat) : res float :=
  match k with
  | O => Ret balance_of_mortgage
  | S k' =>
      b <- balance_after annual_interest_rate target_payment num_of_payments
             balance_of_mortgage k' ;;
      payoff_step annual_interest_rate target_payment num_of_payments b
  end.

Fixpoint printed (trace : list (event float)) : list (line float) :=
  match trace with
  | [] => []
  | Print l :: trace' => l :: printed trace'
  | Call_remaining_payments _ _ _ _ :: trace' => printed trace'
  end.

(** *** [main] (lines 107-119)

    [main] returns its events so far together with how it ended.
<<
    min_payment = get_min_payment(principal, annual_interest_rate,
                                  years, num_of_payments)
    print(f"Minimum Payment: ${min_payment}")
    if target_payment is None:
        target_payment = min_payment
    if target_payment < min_payment:
        print("Your target payment is less than ...")
    else:
        total_payments = remaining_payments(principal, annual_interest_rate,
                                            target_payment, num_of_payments)
        print(f"If you make payments of ${target_payment}, ...")
>> *)
Definition main (fuel : nat) (principal annual_interest_rate : float)
    (years num_of_payments : Z) (target_payment : option float)
    : list (event float) * res unit :=
  match get_min_payment principal annual_interest_rate years num_of_payments with
  | Ret min_payment =>
      let trace := [Print (MinimumPayment min_payment)] in
      let target_payment :=
        match target_payment with
        | None => PInt min_payment
        | Some t => PFloat t
        end in
      if pynum_lt_int target_payment min_payment then
        (trace ++ [Print TargetTooLow], Ret tt)
      else
        let trace := trace ++ [Call_remaining_payments principal
                                 annual_interest_rate target_payment
                                 num_of_payments] in
        match remaining_payments fuel principal annual_interest_rate
                target_payment num_of_payments with
        | Ret total_payments =>
            (trace ++ [Print (Payoff target_payment total_payments)], Ret tt)
        | Raise e => (trace, Raise e)
        | OutOfFuel => (trace, OutOfFuel)
        end
  | Raise e => ([], Raise e)
  | OutOfFuel => ([], OutOfFuel)
  end.

(** The target payment [main] works with once [None] has been replaced. *)
Definition resolved_target (target : option float) (min_payment : Z) : pynum float :=
  match target with
  | None => PInt min_payment
  | Some t => PFloat t
  end.

(** What [main] does after the call of [remaining_payments]. *)
Definition report_payoff (P r : float) (n : Z) (used : pynum float) (m : Z)
    (outcome : res Z) : list (event float) * res unit :=
  let trace := [Print (MinimumPayment m); Call_remaining_payments P r used n] in
  match outcome with
  | Ret k => (trace ++ [Print (Payoff used k)], Ret tt)
  | Raise e => (trace, Raise e)
  | OutOfFuel => (trace, OutOfFuel)
  end.

End Mortgage.

(** ** The command line *)

Section CommandLine.

Context {PF : PyFloat}.

(** The parser configured by lines 157-169, as a function of the tokens it is
    given: it returns a namespace or raises [SystemExit] ([argparse] belongs
    to Python's library, not to the module). *)
Variable parser : list string -> res (namespace float).

(** [ArgumentParser.parse_args(args=None)]: without an argument the tokens
    are taken from [sys.argv[1:]]. *)
Definition ArgumentParser_parse_args (args : option (list string))
    (sys_argv : list string) : res (namespace float) :=
  match args with
  | None => parser (tl sys_argv)
  | Some tokens => parser tokens
  end.

(** [args.target_payment and args.target_payment < 0] as a condition. *)
Definition target_payment_negative (t : option float) : bool :=
  match t with
  | None => false
  | Some t => float_bool t && float_lt_int t 0
  end.

(** *** [parse_args] (lines 171-183)
<<
    args = parser.parse_args()
    if args.mortgage_amount < 0:
        raise ValueError("mortgage amount must be positive")
    if not 0 <= args.annual_interest_rate <= 1:
        raise ValueError("annual interest rate must be between 0 and 1")
    if args.years < 1:
        raise ValueError("years must be positive")
    if args.num_annual_payments < 0:
        raise ValueError("number of payments per year must be positive")
    if args.target_payment and args.target_payment < 0:
        raise ValueError("target payment must be positive")
    return args
>>
    [sys_argv] is the process-level [sys.argv] the call reads. *)
Definition validate (args : namespace float) : res (namespace float) :=
  if float_lt_int (mortgage_amount args) 0 then
    Raise (ValueError "mortgage amount must be positive")
  else if negb (int_le_float 0 (annual_interest_rate args)
                && float_le_int (annual_interest_rate args) 1) then
    Raise (ValueError "annual interest rate must be between 0 and 1")
  else if years args <? 1 then
    Raise (ValueError "years must be positive")
  else if num_annual_payments args <? 0 then
    Raise (ValueError "number of payments per year must be positive")
  else if target_payment_negative (target_payment args) then
    Raise (ValueError "target payment must be positive")
  else Ret args.

Definition parse_args (arglist : list string) (sys_argv : list string)
    : res (namespace float) :=
  args <- ArgumentParser_parse_args None sys_argv ;;
  validate args.

(** An exception that reaches the top level: [SystemExit] ends the process
    with its own code, any other one prints a traceback and gives status 1. *)
Definition uncaught (out : list (line float)) (e : exn) : process float :=
  match e with
  | SystemExit code msg => Process out [Message msg] (Exited code)
  | _ => Process out [Traceback e] (Exited 1)
  end.

(** *** The [__main__] block (lines 186-192)
<<
    try:
        args = parse_args(sys.argv[1:])
    except ValueError as e:
        sys.exit(str(e))
    main(args.mortgage_amount, args.annual_interest_rate, args.years,
         args.num_annual_payments, args.target_payment)
>> *)
Definition program (fuel : nat) (sys_argv : list string) : process float :=
  match parse_args (tl sys_argv) sys_argv with
  | Raise (ValueError msg) => Process [] [Message msg] (Exited 1)
  | Raise e => uncaught [] e
  | OutOfFuel => Process [] [] Running
  | Ret args =>
      match main fuel (mortgage_amount args) (annual_interest_rate args)
              (years args) (num_annual_payments args) (target_payment args) with
      | (trace, Ret _) => Process (printed trace) [] (Exited 0)
      | (trace, Raise e) => uncaught (printed trace) e
      | (trace, OutOfFuel) => Process (printed trace) [] Running
      end
  end.

(** The conditions under which [validate] raises, in one test: a negative
    mortgage amount, a rate for which [0 <= rate <= 1] is false, [years < 1],
    a negative number of payments per year, or a negative target payment. *)
Definition fails_validation (args : namespace float) : bool :=
  float_lt_int (mortgage_amount args) 0
  || negb (int_le_float 0 (annual_interest_rate args)
           && float_le_int (annual_interest_rate args) 1)
  || (years args <? 1)
  || (num_annual_payments args <? 0)
  || target_payment_negative (target_payment args).

(** The two reports [main] can print. *)
Definition is_report (out : list (line float)) : Prop :=
  exists m, out = [MinimumPayment m; TargetTooLow] \/
            exists t k, out = [MinimumPayment m; Payoff t k].

End CommandLine.

(** ** IEEE 754 double precision: what CPython computes *)

Module Binary64.

(** A [float] is a binary64 number: 53 bits of precision, exponents up to
    1024.  [S754_finite s m e] is [(-1)^s * m * 2^e]. *)
Definition prec : Z := 53.
Definition emax : Z := 1024.

Definition add : spec_float -> spec_float -> spec_float := SFadd prec emax.
Definition sub : spec_float -> spec_float -> spec_float := SFsub prec emax.
Definition mul : spec_float -> spec_float -> spec_float := SFmul prec emax.

(** The integer [z], rounded to the nearest double (ties to even). *)
Definition round_int (z : Z) : spec_float := binary_normalize prec emax z 0 false.

(** [m * 2^e] for a positive [m], rounded to the nearest double. *)
Definition round_pos (m : positive) (e : Z) : spec_float :=
  binary_round prec emax false m e.

Definition is_zero (x : spec_float) : bool :=
  match x with S754_zero _ => true | _ => false end.

Definition is_nan (x : spec_float) : bool :=
  match x with S754_nan => true | _ => false end.

Definition is_infinity (x : spec_float) : bool :=
  match x with S754_infinity _ => true | _ => false end.

Definition is_finite (x : spec_float) : bool :=
  match x with S754_zero _ | S754_finite _ _ _ => true | _ => false end.

(** [float(z)]: "int too large to convert to float" when the rounded value
    is not finite. *)
Definition of_int (z : Z) : res spec_float :=
  let x := round_int z in
  if is_finite x then Ret x else Raise OverflowError.

(** [x / y]: "float division by zero" when [y == 0.0]. *)
Definition div (x y : spec_float) : res spec_float :=
  if is_zero y then Raise ZeroDivisionError else Ret (SFdiv prec emax x y).

(** [math.ceil(x)]: [ValueError] on a NaN, [OverflowError] on an infinity,
    otherwise the least integer not below [x]. *)
Definition ceil (x : spec_float) : res Z :=
  match x with
  | S754_nan => Raise (ValueError "cannot convert float NaN to integer")
  | S754_infinity _ => Raise OverflowError
  | S754_zero _ => Ret 0
  | S754_finite s m e =>
      let z := if s then Z.neg m else Z.pos m in
      if 0 <=? e then Ret (z * 2 ^ e)
      else Ret (- ((- z) / 2 ^ (- e)))
  end.

(** The exact comparison of a float with an int; a NaN is unordered. *)
Definition cmp_int (x : spec_float) (z : Z) : option comparison :=
  match x with
  | S754_nan => None
  | S754_infinity s => Some (if s then Lt else Gt)
  | S754_zero _ => Some (0 ?= z)
  | S754_finite s m e =>
      let v := if s then Z.neg m else Z.pos m in
      if 0 <=? e then Some (v * 2 ^ e ?= z)
      else Some (v ?= z * 2 ^ (- e))
  end.

(** [bool(x)] is [x != 0.0]. *)
Definition truth (x : spec_float) : bool := negb (is_zero x).

(** The value of a float that holds an integer (the exponent of [**] is the
    conversion of an [int]). *)
Definition to_int (w : spec_float) : Z :=
  match w with
  | S754_finite s m e =>
      let z := if s then Z.neg m else Z.pos m in
      if 0 <=? e then z * 2 ^ e else z / 2 ^ (- e)
  | _ => 0
  end.

Definition is_negative (x : spec_float) : bool :=
  match x with
  | S754_finite s _ _ | S754_infinity s | S754_zero s => s
  | S754_nan => false
  end.

Definition is_one (x : spec_float) : bool :=
  match cmp_int x 1 with Some Eq => true | _ => false end.

(** [(m * 2^e)^k] for an integer [k <> 0], rounded once to the nearest
    double. *)
Definition nearest_pow (m : positive) (e : Z) (k : Z) : spec_float :=
  match k with
  | Z0 => round_int 1
  | Zpos p => round_pos (m ^ p) (e * k)
  | Zneg p => SFdiv prec emax (S754_finite false 1 0)
                (S754_finite false (m ^ p) (e * Z.pos p))
  end.

(** [a * 2^ea] compared with [b * 2^eb]. *)
Definition cmp_scaled (a : positive) (ea : Z) (b : positive) (eb : Z)
    : comparison :=
  let e0 := Z.min ea eb in
  Z.pos a * 2 ^ (ea - e0) ?= Z.pos b * 2 ^ (eb - e0).

(** A double that is not negative compared with the number [(m * 2^e)^k]
    itself. *)
Definition cmp_pow (y : spec_float) (m : positive) (e : Z) (k : Z)
    : comparison :=
  match y with
  | S754_zero _ => Lt
  | S754_infinity _ => Gt
  | S754_nan => Eq
  | S754_finite _ m' e' =>
      match k with
      | Z0 => Eq
      | Zpos p => cmp_scaled m' e' (m ^ p) (e * k)
      | Zneg p => cmp_scaled (m' * m ^ p) (e' + e * Z.pos p) 1 0
      end
  end.

(** What a C library adds to this model.  The C standard does not say how
    accurate [pow] is; the libraries CPython is built on keep its error below
    one unit in the last place.  That fixes the result when the power is
    itself a double, and otherwise leaves the two doubles around it; a [libm]
    says, for the base [m * 2^e] and the exponent [k], whether the upper one
    is returned. *)
Definition libm : Type := positive -> Z -> Z -> bool.

(** The C library's [pow(x, k)] for a finite [x = m * 2^e > 0] and an integer
    [k <> 0]: the power when it is a double, otherwise the double next above
    or next below it, as the library decides. *)
Definition libm_pow (round_up : libm) (m : positive) (e : Z) (k : Z)
    : spec_float :=
  let y := nearest_pow m e k in
  match cmp_pow y m e k with
  | Eq => y
  | Lt => if round_up m e k then SFsucc prec emax y else y
  | Gt => if round_up m e k then y else SFpred prec emax y
  end.

(** The library whose [pow] is correctly rounded: [libm_pow] is then
    [nearest_pow]. *)
Definition correctly_rounded : libm :=
  fun m e k =>
    match cmp_pow (nearest_pow m e k) m e k with
    | Gt => true
    | _ => false
    end.

(** [x ** w] for floats, following the case analysis of CPython's
    [float_pow] for an exponent [w] that holds a finite integer. *)
Definition float_pow (round_up : libm) (x w : spec_float) : res spec_float :=
  let k := to_int w in
  if is_zero w then Ret (round_int 1)
  else if is_nan x then Ret x
  else
    match x with
    | S754_infinity s =>
        if 0 <? k then Ret (if Z.odd k then x else S754_infinity false)
        else Ret (if Z.odd k then S754_zero s else S754_zero false)
    | S754_zero s =>
        if k <? 0 then Raise ZeroDivisionError
        else Ret (if Z.odd k then x else S754_zero false)
    | S754_finite s m e =>
        let negate_result := s && Z.odd k in
        if is_one (S754_finite false m e) then
          Ret (if negate_result then round_int (-1) else round_int 1)
        else
          let ix := libm_pow round_up m e k in
          if is_infinity ix then Raise OverflowError
          else Ret (if negate_result then SFopp ix else ix)
    | S754_nan => Ret x
    end.

(** [x ** n] for an [int] [n]: the exponent is converted first. *)
Definition pow_int (round_up : libm) (x : spec_float) (n : Z)
    : res spec_float :=
  w <- of_int n ;; float_pow round_up x w.

(** The doubles [1.0] and [+0.0]. *)
Definition one : spec_float := S754_finite false 4503599627370496 (-52).
Definition zero : spec_float := S754_zero false.

End Binary64.

(** CPython's [float] on a platform with the C library [round_up]. *)
Definition binary64_with (round_up : Binary64.libm) : PyFloat := {|
  float := spec_float;
  float_of_int := Binary64.of_int;
  float_add := Binary64.add;
  float_sub := Binary64.sub;
  float_mul := Binary64.mul;
  float_div := Binary64.div;
  float_pow_int := Binary64.pow_int round_up;
  math_ceil := Binary64.ceil;
  float_cmp_int := Binary64.cmp_int;
  float_bool := Binary64.truth
|}.

(** The platform the concrete runs below are computed on.  Every power these
    runs take is itself a double, so that they are the same on every
    platform ([min_payments_on_every_libm]). *)
Definition binary64 : PyFloat := binary64_with Binary64.correctly_rounded.

(** A decimal literal [n / 10^k] with small [n] and [k], as Python reads it:
    both integers are doubles, so one correctly rounded division gives the
    nearest double. *)
Definition decimal (n : Z) (k : positive) : spec_float :=
  SFdiv Binary64.prec Binary64.emax (Binary64.round_int n)
    (Binary64.round_int (10 ^ Z.pos k)).

(** The scenario with rate zero of the specification (principal 12000, one
    year, 12 payments a year), as the namespace the parser returns. *)
Definition zero_rate_args : namespace spec_float :=
  Namespace (Binary64.round_int 12000) Binary64.zero 1 12 None.

(** A valid command line: principal 1000, rate 0.5, 2 years, one payment a
    year, no target payment. *)
Definition scenario_args : namespace spec_float :=
  Namespace (Binary64.round_int 1000) (decimal 5 1) 2 1 None.

(** The same with a principal of -1, and with 0 payments a year. *)
Definition negative_amount_args : namespace spec_float :=
  Namespace (Binary64.round_int (-1)) (decimal 5 1) 2 1 None.

Definition zero_frequency_args : namespace spec_float :=
  Namespace (Binary64.round_int 1000) (decimal 5 1) 2 0 None.


(** ** Exact arithmetic: the same operations without rounding *)

Module Exact.

Definition of_int (z : Z) : res Q := Ret (inject_Z z).

Definition div (x y : Q) : res Q :=
  if Qeq_bool y 0 then Raise ZeroDivisionError else Ret (x / y)%Q.

Definition pow_int (x : Q) (n : Z) : res Q :=
  if Qeq_bool x 0 && (n <? 0) then Raise ZeroDivisionError
  else Ret (x ^ n)%Q.

Definition ceil (x : Q) : res Z := Ret (Qceiling x).

Definition cmp_int (x : Q) (z : Z) : option comparison :=
  Some (x ?= inject_Z z)%Q.

Definition truth (x : Q) : bool := negb (Qeq_bool x 0).

(** The number a target payment stands for. *)
Definition value (t : pynum Q) : Q :=
  match t with
  | PInt a => inject_Z a
  | PFloat y => y
  end.

(** The level payment [get_min_payment] rounds up, for a rate that is not
    zero: [P * (r * (1 + r)^n) / ((1 + r)^n - 1)] with the periodic rate
    [r = annual rate / F] and [n = T * F]. *)
Definition annuity (P annual_rate : Q) (T F : Z) : Q :=
  (P * (annual_rate / inject_Z F
        * (inject_Z 1 + annual_rate / inject_Z F) ^ (T * F))
   / ((inject_Z 1 + annual_rate / inject_Z F) ^ (T * F) - inject_Z 1))%Q.

End Exact.

Definition exact : PyFloat := {|
  float := Q;
  float_of_int := Exact.of_int;
  float_add := Qplus;
  float_sub := Qminus;
  float_mul := Qmult;
  float_div := Exact.div;
  float_pow_int := Exact.pow_int;
  math_ceil := Exact.ceil;
  float_cmp_int := Exact.cmp_int;
  float_bool := Exact.truth
|}.

(** "The principal portion stays strictly positive at every step": whenever
    the balance after [k] executions of the loop body is positive, the
    principal portion of the next payment is positive. *)
Definition principal_portion_stays_positive (B r : Q) (t : pynum Q) (F : Z)
    : Prop :=
  forall k b,
    balance_after (PF := exact) r t F B k = Ret b -> (0 < b)%Q ->
    exists p, principal_portion (PF := exact) r t F b = Ret p /\ (0 < p)%Q.

(** * Properties *)

(** ** Facts that hold for every implementation of [float] *)

Section Generic.

Context {PF : PyFloat}.

Lemma bind_assoc {A B C : Type} (c : res A) (f : A -> res B) (g : B -> res C) :
  bind (bind c f) g = bind c (fun a => bind (f a) g).
Proof. destruct c; reflexivity. Qed.

(** The loop, one test and one body at a time. *)
Lemma payoff_loop_exit r t n fuel b p :
  float_gt_int b 0 = false -> payoff_loop r t n fuel b p = Ret p.
Proof. intros Hb. destruct fuel; simpl; rewrite Hb; reflexivity. Qed.

Lemma payoff_loop_body r t n fuel b p :
  float_gt_int b 0 = true ->
  payoff_loop r t n (S fuel) b p =
  bind (payoff_step r t n b) (fun b' => payoff_loop r t n fuel b' (p + 1)).
Proof.
  intros Hb. simpl. rewrite Hb.
  unfold payoff_step, principal_portion. rewrite !bind_assoc.
  destruct (interest_due b r n) as [i | e | ]; simpl; try reflexivity.
  all: try (destruct (pynum_sub_float t i); reflexivity).
Qed.

Lemma payoff_loop_stuck r t n b p :
  float_gt_int b 0 = true -> payoff_loop r t n 0 b p = OutOfFuel.
Proof. intros Hb. simpl. rewrite Hb. reflexivity. Qed.

(** More fuel does not change a result that was reached. *)
Lemma payoff_loop_fuel_mono r t n fuel :
  forall fuel' b p k, (fuel <= fuel')%nat ->
    payoff_loop r t n fuel b p = Ret k -> payoff_loop r t n fuel' b p = Ret k.
Proof.
  induction fuel as [| fuel IH]; intros fuel' b p k Hle Hrun.
  - destruct (float_gt_int b 0) eqn:Hb.
    + rewrite payoff_loop_stuck in Hrun by assumption. discriminate.
    + rewrite payoff_loop_exit in * by assumption. assumption.
  - destruct (float_gt_int b 0) eqn:Hb.
    + destruct fuel' as [| fuel']; [lia |].
      rewrite payoff_loop_body in * by assumption.
      destruct (payoff_step r t n b) as [b' | e | ]; simpl in *; try discriminate.
      apply IH; [lia | assumption].
    + rewrite payoff_loop_exit in * by assumption. assumption.
Qed.

(** The counter only counts: started at [p] the loop returns [p] more than
    started at [0]. *)
Lemma payoff_loop_shift r t n fuel :
  forall b p k, payoff_loop r t n fuel b 0 = Ret k ->
    payoff_loop r t n fuel b p = Ret (p + k).
Proof.
  assert (G : forall b p q k, payoff_loop r t n fuel b q = Ret k ->
                payoff_loop r t n fuel b (p + q) = Ret (p + k)).
  { induction fuel as [| fuel IH]; intros b p q k Hrun.
    - destruct (float_gt_int b 0) eqn:Hb.
      + rewrite payoff_loop_stuck in Hrun by assumption. discriminate.
      + rewrite payoff_loop_exit in * by assumption. congruence.
    - destruct (float_gt_int b 0) eqn:Hb.
      + rewrite payoff_loop_body in * by assumption.
        destruct (payoff_step r t n b) as [b' | e | ]; simpl in *; try discriminate.
        rewrite <- Z.add_assoc. apply IH. assumption.
      + rewrite payoff_loop_exit in * by assumption. congruence. }
  intros b p k Hrun. rewrite <- (Z.add_0_r p) at 1. apply G. assumption.
Qed.

(** A balance that the body leaves unchanged keeps the loop running for
    ever: no amount of fuel produces a result. *)
Lemma payoff_loop_fixed_point r t n b :
  float_gt_int b 0 = true -> payoff_step r t n b = Ret b ->
  forall fuel p, payoff_loop r t n fuel b p = OutOfFuel.
Proof.
  intros Hb Hstep. induction fuel as [| fuel IH]; intros p.
  - apply payoff_loop_stuck; assumption.
  - rewrite payoff_loop_body by assumption. rewrite Hstep. simpl. apply IH.
Qed.

Lemma balance_after_fixed_point r t n b :
  payoff_step r t n b = Ret b -> forall k, balance_after r t n b k = Ret b.
Proof.
  intros Hstep. induction k as [| k IH]; simpl.
  - reflexivity.
  - rewrite IH. simpl. assumption.
Qed.

Lemma principal_portion_fixed_point r t n b p :
  payoff_step r t n b = Ret b -> principal_portion r t n b = Ret p ->
  forall k b', balance_after r t n b k = Ret b' ->
    principal_portion r t n b' = Ret p.
Proof.
  intros Hstep Hp k b' Hk.
  rewrite (balance_after_fixed_point r t n b Hstep k) in Hk.
  injection Hk as <-. exact Hp.
Qed.

(** C10.  A call of [remaining_payments] whose starting balance satisfies
    [balance <= 0] returns 0, whatever the rate, the target payment and the
    frequency.  It does so with no fuel at all, that is without one execution
    of the loop body, hence without a call of [interest_due]. *)
Theorem remaining_payments_nonpositive_balance
    (balance r : float) (t : pynum float) (n : Z) :
  float_le_int balance 0 = true ->
  remaining_payments 0 balance r t n = Ret 0 /\
  forall fuel, remaining_payments fuel balance r t n = Ret 0.
Proof.
  intros Hle.
  assert (Hgt : float_gt_int balance 0 = false).
  { unfold float_le_int in Hle. unfold float_gt_int.
    destruct (float_cmp_int balance 0) as [[ | | ] | ]; congruence. }
  split; [| intros fuel]; apply payoff_loop_exit; assumption.
Qed.

(** [main] once the minimum payment [m] is known. *)
Lemma main_after_min_payment (fuel : nat) (P r : float) (T n : Z)
    (target : option float) (m : Z) :
  get_min_payment P r T n = Ret m ->
  main fuel P r T n target =
    if pynum_lt_int (resolved_target target m) m
    then ([Print (MinimumPayment m); Print TargetTooLow], Ret tt)
    else report_payoff P r n (resolved_target target m) m
           (remaining_payments fuel P r (resolved_target target m) n).
Proof.
  intros Hmin. unfold main. rewrite Hmin.
  fold (resolved_target target m).
  destruct (pynum_lt_int (resolved_target target m) m); [reflexivity |].
  unfold report_payoff.
  destruct (remaining_payments fuel P r (resolved_target target m) n);
    reflexivity.
Qed.

End Generic.

(** ** The command line, for every implementation of [float] *)

Section GenericCommandLine.

Context {PF : PyFloat}.
Variable parser : list string -> res (namespace float).

Lemma validate_fails (args : namespace float) :
  fails_validation args = true ->
  exists msg, validate args = Raise (ValueError msg).
Proof.
  unfold fails_validation, validate. intros H.
  destruct (float_lt_int (mortgage_amount args) 0); [eexists; reflexivity |].
  destruct (negb (int_le_float 0 (annual_interest_rate args)
                  && float_le_int (annual_interest_rate args) 1));
    [eexists; reflexivity |].
  destruct (years args <? 1); [eexists; reflexivity |].
  destruct (num_annual_payments args <? 0); [eexists; reflexivity |].
  destruct (target_payment_negative (target_payment args));
    [eexists; reflexivity | discriminate].
Qed.

Lemma validate_passes (args : namespace float) :
  fails_validation args = false -> validate args = Ret args.
Proof.
  unfold fails_validation, validate. intros H.
  repeat (apply orb_false_elim in H; destruct H as [H ?]).
  repeat match goal with E : _ = false |- _ => rewrite E; clear E end.
  reflexivity.
Qed.

(** When [main] returns it has printed one of the two reports. *)
Lemma main_returns_report fuel P r T n target trace :
  main fuel P r T n target = (trace, Ret tt) -> is_report (printed trace).
Proof.
  unfold main. destruct (get_min_payment P r T n) as [m | e | ];
    try (intros E; inversion E; fail).
  destruct (pynum_lt_int _ m).
  - intros E. inversion E. exists m. left. reflexivity.
  - destruct (remaining_payments fuel P r _ n) as [k | e | ];
      intros E; inversion E.
    exists m. right. eexists. exists k. reflexivity.
Qed.

(** C9.  The result of [parse_args] does not depend on its parameter
    [arglist]: two calls under the same [sys.argv] give the same result,
    which is the validation of what the parser makes of [sys.argv[1:]]. *)
Theorem parse_args_ignores_arglist (arglist1 arglist2 sys_argv : list string) :
  parse_args parser arglist1 sys_argv = parse_args parser arglist2 sys_argv /\
  parse_args parser arglist1 sys_argv = bind (parser (tl sys_argv)) validate.
Proof. split; reflexivity. Qed.

(** C2 (what the code does).  A namespace whose number of payments per year
    is 0, and whose other attributes pass their tests, passes validation:
    [parse_args] returns it and raises nothing. *)
Theorem parse_args_accepts_zero_frequency
    (arglist sys_argv : list string) (args : namespace float) :
  parser (tl sys_argv) = Ret args ->
  num_annual_payments args = 0 ->
  float_lt_int (mortgage_amount args) 0 = false ->
  int_le_float 0 (annual_interest_rate args) = true ->
  float_le_int (annual_interest_rate args) 1 = true ->
  1 <= years args ->
  target_payment_negative (target_payment args) = false ->
  parse_args parser arglist sys_argv = Ret args.
Proof.
  intros Hparse Hn Hamount Hlo Hhi Hyears Htarget.
  unfold parse_args, ArgumentParser_parse_args. rewrite Hparse. simpl.
  apply validate_passes. unfold fails_validation.
  rewrite Hamount, Hlo, Hhi, Hn, Htarget.
  replace (years args <? 1) with false by (symmetry; apply Z.ltb_ge; lia).
  reflexivity.
Qed.

(** X12.  When the parser returns a namespace that fails validation, the
    process ends with status 1 having written nothing but the message of the
    [ValueError] that [validate] raises for it (no traceback, no report).
    When the namespace is valid and [main] returns, the process has printed
    the report and ends with status 0. *)
Theorem program_exit_status (fuel : nat) (sys_argv : list string)
    (args : namespace float) :
  parser (tl sys_argv) = Ret args ->
  (fails_validation args = true ->
     exists msg, validate args = Raise (ValueError msg) /\
                 program parser fuel sys_argv =
                   Process [] [Message msg] (Exited 1)) /\
  (fails_validation args = false ->
     forall trace,
       main fuel (mortgage_amount args) (annual_interest_rate args)
         (years args) (num_annual_payments args) (target_payment args)
         = (trace, Ret tt) ->
       program parser fuel sys_argv = Process (printed trace) [] (Exited 0) /\
       is_report (printed trace)).
Proof.
  intros Hparse. unfold program, parse_args, ArgumentParser_parse_args.
  rewrite Hparse. simpl. split.
  - intros Hbad. destruct (validate_fails args Hbad) as [msg Hmsg].
    exists msg. rewrite Hmsg. split; reflexivity.
  - intros Hok trace Hmain. rewrite (validate_passes args Hok), Hmain.
    split; [reflexivity | eapply main_returns_report; eassumption].
Qed.

End GenericCommandLine.

(** ** The module as CPython runs it: binary64 *)

Section OnBinary64.

(** The C library is arbitrary in this section. *)
Variable round_up : Binary64.libm.

#[local] Hint Extern 0 PyFloat => exact (binary64_with round_up)
  : typeclass_instances.

Import Binary64.

Lemma of_int_1 : of_int 1 = Ret one.
Proof. reflexivity. Qed.

Lemma of_int_0 : of_int 0 = Ret zero.
Proof. reflexivity. Qed.

Lemma of_int_finite z y : of_int z = Ret y -> is_finite y = true.
Proof.
  unfold of_int. destruct (is_finite (round_int z)) eqn:H;
    intros E; inversion E; subst; assumption.
Qed.

(** [1.0 ** w] is [1.0] for every exponent. *)
Lemma float_pow_one w : float_pow round_up one w = Ret one.
Proof. unfold float_pow. destruct (is_zero w); reflexivity. Qed.

Lemma div_zero_by_nonzero s y :
  is_finite y = true -> is_zero y = false ->
  div (S754_zero s) y = Ret (S754_zero (xorb s (is_negative y))).
Proof. destruct y; simpl; try discriminate; reflexivity. Qed.

(** At rate [0.0] or [-0.0] the call raises before it can return. *)
Lemma get_min_payment_zero_rate_cases (P : spec_float) (s : bool) (T F : Z) :
  get_min_payment P (S754_zero s) T F = Raise ZeroDivisionError \/
  get_min_payment P (S754_zero s) T F = Raise OverflowError.
Proof.
  unfold get_min_payment, float_div_int, int_add_float, float_sub_int.
  cbn [float_of_int float_div float_pow_int float_add float_sub float_mul
       math_ceil binary64_with].
  destruct (of_int F) as [y | e | ] eqn:Hy; cbn [bind].
  - pose proof (of_int_finite _ _ Hy) as Fy.
    destruct (is_zero y) eqn:Zy.
    + left. unfold div. rewrite Zy. reflexivity.
    + rewrite div_zero_by_nonzero by assumption. cbn [bind].
      rewrite of_int_1. cbn [bind].
      replace (add one (S754_zero (xorb s (is_negative y)))) with one
        by reflexivity.
      unfold pow_int.
      destruct (of_int (T * F)) as [w | e | ] eqn:Hw; cbn [bind].
      * left. rewrite float_pow_one. cbn [bind]. reflexivity.
      * right. unfold of_int in Hw.
        destruct (is_finite (round_int (T * F))); congruence.
      * unfold of_int in Hw.
        destruct (is_finite (round_int (T * F))); discriminate.
  - right. unfold of_int in Hy.
    destruct (is_finite (round_int F)); congruence.
  - unfold of_int in Hy. destruct (is_finite (round_int F)); discriminate.
Qed.

(** C1 (what the code does).  With an annual rate of zero [get_min_payment]
    does not return [ceil(P / (T*F))]: whenever [F] and [T * F] are small
    enough to be converted to [float], the division by
    [((1 + r) ** n) - 1 = 0.0] raises [ZeroDivisionError], whatever the
    principal and the term. *)
Theorem get_min_payment_zero_rate_raises (P : spec_float) (s : bool)
    (T F : Z) (y w : spec_float) :
  of_int F = Ret y -> of_int (T * F) = Ret w ->
  get_min_payment P (S754_zero s) T F = Raise ZeroDivisionError.
Proof.
  intros Hy Hw.
  destruct (get_min_payment_zero_rate_cases P s T F) as [H | H]; [exact H |].
  exfalso. revert H.
  unfold get_min_payment, float_div_int, int_add_float, float_sub_int.
  cbn [float_of_int float_div float_pow_int float_add float_sub float_mul
       math_ceil binary64_with].
  rewrite Hy. cbn [bind].
  pose proof (of_int_finite _ _ Hy) as Fy.
  destruct (is_zero y) eqn:Zy.
  - unfold div. rewrite Zy. discriminate.
  - rewrite div_zero_by_nonzero by assumption. cbn [bind].
    rewrite of_int_1. cbn [bind].
    replace (add one (S754_zero (xorb s (is_negative y)))) with one
      by reflexivity.
    unfold pow_int. rewrite Hw. cbn [bind]. rewrite float_pow_one.
    cbn [bind]. discriminate.
Qed.

(** C5 (what the code does).  With an annual rate of zero [get_min_payment]
    returns no payment at all, so no product [min_payment * (T*F)] exists to
    be compared with the principal. *)
Theorem get_min_payment_zero_rate_no_payment (P : spec_float) (s : bool)
    (T F m : Z) :
  get_min_payment P (S754_zero s) T F <> Ret m.
Proof.
  destruct (get_min_payment_zero_rate_cases P s T F) as [H | H];
    rewrite H; discriminate.
Qed.

(** A frequency of zero makes the first division of [get_min_payment] raise,
    and [main] with it, before anything is printed. *)
Lemma main_zero_frequency_raises fuel (P r : spec_float) (T : Z) target :
  main fuel P r T 0 target = ([], Raise ZeroDivisionError).
Proof. reflexivity. Qed.

End OnBinary64.

(** ** Concrete runs on binary64 *)

Section Runs.

#[local] Existing Instance binary64.

Import Binary64.

Lemma remaining_payments_fuel_mono fuel fuel' (b r : spec_float) t n k :
  (fuel <= fuel')%nat ->
  remaining_payments fuel b r t n = Ret k ->
  remaining_payments fuel' b r t n = Ret k.
Proof. intros Hle. apply payoff_loop_fuel_mono. assumption. Qed.

(** C3, refuted as stated.  Principal 1.0, annual rate 1.0, a term of 2 years
    and one payment a year: the annuity is [1 * (1 * 4) / (4 - 1) = 1.33...],
    the minimum payment its ceiling 2, and the first payment of 2 covers the
    interest 1.0 and the whole principal.  [main] reports 1 payment, not
    [2 * 1]. *)
Lemma default_target_payoff_count_differs :
  int_le_float 0 (round_int 1) = true /\
  float_le_int (round_int 1) 1 = true /\
  get_min_payment (round_int 1) (round_int 1) 2 1 = Ret 2 /\
  (forall fuel, (1 <= fuel)%nat ->
     remaining_payments fuel (round_int 1) (round_int 1) (PInt 2) 1 = Ret 1 /\
     main fuel (round_int 1) (round_int 1) 2 1 None =
       ([Print (MinimumPayment 2);
         Call_remaining_payments (round_int 1) (round_int 1) (PInt 2) 1;
         Print (Payoff (PInt 2) 1)], Ret tt)) /\
  1 <> 2 * 1.
Proof.
  repeat split; try reflexivity; try lia.
  - apply (remaining_payments_fuel_mono 1); [assumption | reflexivity].
  - rewrite (main_after_min_payment fuel _ _ _ _ None 2) by reflexivity.
    simpl pynum_lt_int. simpl resolved_target. cbv iota.
    rewrite (remaining_payments_fuel_mono 1 fuel _ _ _ _ 1);
      [reflexivity | assumption | reflexivity].
Qed.

(** C4 (what the code does).  Principal 1000000.0, annual rate [3 * 2^-54]
    (about 1.67e-16), one year, one payment a year.  The annuity is
    [P * (1 + r)], a little above 1000000, so the minimum payment is 1000001:
    exact arithmetic returns it, and paid on binary64 it retires the loan in
    1 payment.  On binary64 [1 + r] rounds to [1 + 2^-52] and the denominator
    [((1 + r) ** 1) - 1] is [2^-52], a third more than [r]: [get_min_payment]
    returns 750001, which is not the minimum payment its docstring promises,
    and paying it takes 2 payments, more than [T * F = 1]. *)
Lemma payoff_longer_than_term :
  int_le_float 0 (round_int 1000000) = true /\
  float_gt_int (round_pos 3 (-54)) 0 = true /\
  float_le_int (round_pos 3 (-54)) 1 = true /\
  get_min_payment (round_int 1000000) (round_pos 3 (-54)) 1 1 = Ret 750001 /\
  pynum_lt_int (PInt 750001) 750001 = false /\
  remaining_payments 1 (round_int 1000000) (round_pos 3 (-54))
    (PInt 750001) 1 = OutOfFuel /\
  (forall fuel, (2 <= fuel)%nat ->
     remaining_payments fuel (round_int 1000000) (round_pos 3 (-54))
       (PInt 750001) 1 = Ret 2) /\
  ~ (2 <= 1 * 1) /\
  get_min_payment (PF := exact) 1000000%Q (3 # 18014398509481984)%Q 1 1
    = Ret 1000001 /\
  (forall fuel, (1 <= fuel)%nat ->
     remaining_payments fuel (round_int 1000000) (round_pos 3 (-54))
       (PInt 1000001) 1 = Ret 1).
Proof.
  repeat split; try reflexivity; try lia.
  - intros fuel Hfuel.
    apply (remaining_payments_fuel_mono 2); [assumption | reflexivity].
  - intros fuel Hfuel.
    apply (remaining_payments_fuel_mono 1); [assumption | reflexivity].
Qed.

(** The same input breaks the bound of C5 for a rate that is not zero:
    750001 paid once is less than the principal. *)
Lemma min_payment_below_principal :
  get_min_payment (round_int 1000000) (round_pos 3 (-54)) 1 1 = Ret 750001 /\
  float_gt_int (round_int 1000000) (750001 * (1 * 1)) = true.
Proof. split; reflexivity. Qed.

(** Paying the minimum may also never end.  Principal 1000000.0, annual rate
    1.0, 60 years, one payment a year: [2.0 ** 60 - 1] rounds to [2.0 ** 60],
    the annuity is computed as exactly the principal, and a payment of 1000000
    only covers the interest [1000000.0 * 1.0]. *)
Lemma min_payment_never_pays_off :
  get_min_payment (round_int 1000000) one 60 1 = Ret 1000000 /\
  principal_portion one (PInt 1000000) 1 (round_int 1000000) = Ret zero /\
  forall fuel,
    remaining_payments fuel (round_int 1000000) one (PInt 1000000) 1
    = OutOfFuel.
Proof.
  split; [reflexivity | split; [reflexivity |]].
  intros fuel. apply payoff_loop_fixed_point; reflexivity.
Qed.


(** C7, refuted as stated.  Balance 1e17, rate 0.0, one payment a year and a
    target payment of 1.0: at every step the interest is 0.0 and the
    principal portion is 1.0, strictly positive, but [1e17 - 1.0] rounds back
    to [1e17].  The balance never changes and the loop returns for no amount
    of fuel. *)
Lemma positive_principal_portion_absorbed :
  let B := round_int (10 ^ 17) in
  float_gt_int B 0 = true /\
  int_le_float 0 zero = true /\ float_le_int zero 1 = true /\
  (forall k b, balance_after zero (PFloat one) 1 B k = Ret b ->
     float_gt_int b 0 = true ->
     exists p, principal_portion zero (PFloat one) 1 b = Ret p /\
               float_gt_int p 0 = true) /\
  (forall k, balance_after zero (PFloat one) 1 B k = Ret B) /\
  ~ (exists fuel k, remaining_payments fuel B zero (PFloat one) 1 = Ret k).
Proof.
  intros B.
  assert (Hpos : float_gt_int B 0 = true) by (vm_compute; reflexivity).
  assert (Hstep : payoff_step zero (PFloat one) 1 B = Ret B)
    by (vm_compute; reflexivity).
  assert (Hportion : principal_portion zero (PFloat one) 1 B = Ret one)
    by (vm_compute; reflexivity).
  assert (Hall : forall k, balance_after zero (PFloat one) 1 B k = Ret B)
    by exact (balance_after_fixed_point (PF := binary64) zero (PFloat one) 1 B
                Hstep).
  split; [exact Hpos |].
  split; [reflexivity |]. split; [reflexivity |].
  split; [| split; [exact Hall |]].
  - intros k b Hk _. exists one. split; [| reflexivity].
    exact (principal_portion_fixed_point (PF := binary64) zero (PFloat one) 1
             B one Hstep Hportion k b Hk).
  - intros (fuel & k & Hrun). unfold remaining_payments in Hrun.
    rewrite (payoff_loop_fixed_point _ _ _ _ Hpos Hstep) in Hrun.
    discriminate.
Qed.

(** C8 (what the code does).  The command line [12000 0 -y 1] is valid, yet
    the process prints no report and does not end with status zero:
    [get_min_payment] raises [ZeroDivisionError] at rate zero, nobody catches
    it, and the process ends with a traceback and status 1. *)
Lemma valid_input_ends_in_traceback :
  fails_validation zero_rate_args = false /\
  forall fuel sys_argv,
    program (fun _ => Ret zero_rate_args) fuel sys_argv =
      Process [] [Traceback ZeroDivisionError] (Exited 1).
Proof. split; reflexivity. Qed.

(** The theorems above, applied to runs of the module. *)

Lemma get_min_payment_zero_rate_raises_witness :
  of_int 12 = Ret (round_int 12) /\ of_int (1 * 12) = Ret (round_int 12) /\
  get_min_payment (round_int 12000) zero 1 12 = Raise ZeroDivisionError.
Proof.
  split; [reflexivity | split; [reflexivity |]].
  apply (get_min_payment_zero_rate_raises correctly_rounded
           (round_int 12000) false 1 12 (round_int 12) (round_int 12));
    reflexivity.
Defined.

Lemma remaining_payments_nonpositive_balance_witness :
  float_le_int (round_int (-5)) 0 = true /\
  remaining_payments 0 (round_int (-5)) (decimal 5 1) (PInt 900) 1 = Ret 0 /\
  forall fuel,
    remaining_payments fuel (round_int (-5)) (decimal 5 1) (PInt 900) 1
    = Ret 0.
Proof.
  split; [reflexivity |].
  apply (remaining_payments_nonpositive_balance (PF := binary64)).
  reflexivity.
Defined.

Lemma parse_args_accepts_zero_frequency_witness :
  parse_args (fun _ => Ret zero_frequency_args) [] [] = Ret zero_frequency_args.
Proof.
  apply (parse_args_accepts_zero_frequency (PF := binary64)
           (fun _ => Ret zero_frequency_args) [] [] zero_frequency_args);
    try reflexivity.
  simpl. lia.
Defined.





Lemma program_exit_status_witness :
  (exists msg,
     validate negative_amount_args = Raise (ValueError msg) /\
     program (fun _ => Ret negative_amount_args) 2 [] =
       Process [] [Message msg] (Exited 1)) /\
  program (fun _ => Ret scenario_args) 2 [] =
    Process [MinimumPayment 900; Payoff (PInt 900) 2] [] (Exited 0).
Proof.
  split.
  - apply (proj1 (program_exit_status (PF := binary64)
                    (fun _ => Ret negative_amount_args) 2 []
                    negative_amount_args eq_refl)).
    vm_compute; reflexivity.
  - apply (proj2 (program_exit_status (PF := binary64)
                    (fun _ => Ret scenario_args) 2 [] scenario_args eq_refl)
             ltac:(vm_compute; reflexivity)
             [Print (MinimumPayment 900);
              Call_remaining_payments (round_int 1000) (decimal 5 1)
                (PInt 900) 1;
              Print (Payoff (PInt 900) 2)]).
    vm_compute; reflexivity.
Defined.

End Runs.

(** ** The module in exact arithmetic *)

Section OnExact.

#[local] Existing Instance exact.

Local Open Scope Q_scope.

Lemma gt_int_0 (b : Q) : float_gt_int b 0 = true <-> 0 < b.
Proof.
  unfold float_gt_int. cbn [float_cmp_int exact]. unfold Exact.cmp_int.
  change (inject_Z 0) with 0.
  rewrite (Qgt_alt b 0). destruct (b ?= 0); split; congruence.
Qed.

Lemma gt_int_0_false (b : Q) : float_gt_int b 0 = false <-> b <= 0.
Proof.
  unfold float_gt_int. cbn [float_cmp_int exact]. unfold Exact.cmp_int.
  change (inject_Z 0) with 0.
  rewrite (Qle_alt b 0). destruct (b ?= 0); split; congruence.
Qed.

Lemma div_by_frequency (r : Q) (F : Z) :
  (1 <= F)%Z -> float_div_int r F = Ret (r / inject_Z F).
Proof.
  intros HF. unfold float_div_int. cbn [float_of_int float_div exact].
  unfold Exact.of_int, Exact.div. cbn [bind].
  destruct (Qeq_bool (inject_Z F) 0) eqn:E; [| reflexivity].
  apply Qeq_bool_iff in E. unfold Qeq in E. simpl in E. lia.
Qed.

Lemma principal_portion_exact r t F b :
  (1 <= F)%Z -> principal_portion r t F b = Ret (Exact.value t - b * (r / inject_Z F)).
Proof.
  intros HF. unfold principal_portion, interest_due.
  rewrite div_by_frequency by assumption. cbn [bind].
  destruct t; reflexivity.
Qed.

Lemma payoff_step_exact r t F b :
  (1 <= F)%Z ->
  payoff_step r t F b = Ret (b - (Exact.value t - b * (r / inject_Z F))).
Proof.
  intros HF. unfold payoff_step.
  rewrite principal_portion_exact by assumption. reflexivity.
Qed.

Lemma frequency_positive (F : Z) : (1 <= F)%Z -> 0 < inject_Z F.
Proof. intros HF. unfold Qlt. simpl. lia. Qed.

Lemma periodic_rate_nonneg (r : Q) (F : Z) :
  (1 <= F)%Z -> 0 <= r -> 0 <= r / inject_Z F.
Proof.
  intros HF Hr. apply Qle_shift_div_l; [apply frequency_positive; assumption |].
  lra.
Qed.

Lemma periodic_rate_positive (r : Q) (F : Z) :
  (1 <= F)%Z -> 0 < r -> 0 < r / inject_Z F.
Proof.
  intros HF Hr. apply Qlt_shift_div_l; [apply frequency_positive; assumption |].
  lra.
Qed.

Lemma Qpower_succ (x : Q) (j : nat) :
  x ^ Z.of_nat (S j) == x * x ^ Z.of_nat j.
Proof.
  rewrite Nat2Z.inj_succ. unfold Z.succ. rewrite Z.add_comm.
  rewrite Qpower_plus' by lia. rewrite Qpower_1_r. reflexivity.
Qed.

(** The loop returns within [j] iterations from every balance [b] that the
    level payment [A] retires in [j] periods:
    [b * rho * x^j <= A * (x^j - 1)] with [x = 1 + rho]. *)
Lemma payoff_loop_within r t F A (j : nat) :
  (1 <= F)%Z -> 0 < r -> A <= Exact.value t ->
  forall b p,
    b * (r / inject_Z F) * (1 + r / inject_Z F) ^ Z.of_nat j
      <= A * ((1 + r / inject_Z F) ^ Z.of_nat j - 1) ->
    exists k, (0 <= k <= Z.of_nat j)%Z /\
      forall fuel, (j <= fuel)%nat ->
        payoff_loop r t F fuel b p = Ret (p + k)%Z.
Proof.
  intros HF Hr HA.
  pose proof (periodic_rate_positive r F HF Hr) as Hrho.
  set (rho := r / inject_Z F) in *.
  induction j as [| j IH]; intros b p Hb.
  - exists 0%Z. split; [lia |]. intros fuel _.
    rewrite Z.add_0_r. apply payoff_loop_exit. apply gt_int_0_false.
    change ((1 + rho) ^ Z.of_nat 0) with 1 in Hb. nra.
  - destruct (float_gt_int (PF := exact) b 0) eqn:Hgt.
    + rewrite Qpower_succ in Hb.
      assert (Hy : 0 < (1 + rho) ^ Z.of_nat j) by (apply Qpower_0_lt; lra).
      set (y := (1 + rho) ^ Z.of_nat j) in *.
      destruct (IH (b - (Exact.value t - b * rho)) (p + 1)%Z) as (k & Hk & Hrun).
      { assert (0 <= (Exact.value t - A) * (rho * y)).
        { apply Qmult_le_0_compat; [lra |].
          apply Qlt_le_weak. apply Qmult_lt_0_compat; assumption. }
        nra. }
      exists (1 + k)%Z. split; [lia |].
      intros fuel Hfuel. destruct fuel as [| fuel]; [lia |].
      rewrite payoff_loop_body by assumption.
      rewrite payoff_step_exact by assumption. cbn [bind].
      fold rho. rewrite Hrun by lia. f_equal. lia.
    + exists 0%Z. split; [lia |]. intros fuel _.
      rewrite Z.add_0_r. apply payoff_loop_exit. assumption.
Qed.

Lemma growth_above_one (r : Q) (T F : Z) :
  (1 <= T)%Z -> (1 <= F)%Z -> 0 < r ->
  1 < (inject_Z 1 + r / inject_Z F) ^ (T * F).
Proof.
  intros HT HF Hr. pose proof (periodic_rate_positive r F HF Hr).
  apply Qpower_1_lt; [change (inject_Z 1) with 1; lra | nia].
Qed.

Lemma get_min_payment_exact (P r : Q) (T F : Z) :
  (1 <= T)%Z -> (1 <= F)%Z -> 0 < r ->
  get_min_payment P r T F = Ret (Qceiling (Exact.annuity P r T F)).
Proof.
  intros HT HF Hr. unfold get_min_payment.
  rewrite div_by_frequency by assumption. cbn [bind].
  unfold int_add_float, float_sub_int.
  cbn [float_of_int float_add float_sub float_mul float_div float_pow_int
       math_ceil exact].
  unfold Exact.of_int. cbn [bind]. unfold Exact.pow_int.
  replace (T * F <? 0)%Z with false by (symmetry; apply Z.ltb_ge; nia).
  rewrite andb_false_r. cbn [bind]. unfold Exact.div.
  pose proof (growth_above_one r T F HT HF Hr) as Hq.
  destruct (Qeq_bool _ 0) eqn:E.
  - apply Qeq_bool_iff in E. change (inject_Z 1) with 1 in *. lra.
  - reflexivity.
Qed.

Lemma annuity_equation (P r : Q) (T F : Z) :
  (1 <= T)%Z -> (1 <= F)%Z -> 0 < r ->
  Exact.annuity P r T F * ((1 + r / inject_Z F) ^ (T * F) - 1)
  == P * (r / inject_Z F) * (1 + r / inject_Z F) ^ (T * F).
Proof.
  intros HT HF Hr. pose proof (growth_above_one r T F HT HF Hr) as Hq.
  unfold Exact.annuity. change (inject_Z 1) with 1 in *.
  set (q := (1 + r / inject_Z F) ^ (T * F)) in *.
  set (rho := r / inject_Z F).
  field. lra.
Qed.

Lemma target_at_least_min (t : pynum Q) (m : Z) :
  pynum_lt_int t m = false -> inject_Z m <= Exact.value t.
Proof.
  destruct t as [a | y]; cbn [pynum_lt_int Exact.value].
  - intros H. apply Z.ltb_ge in H. rewrite <- Zle_Qle. assumption.
  - unfold float_lt_int. cbn [float_cmp_int exact]. unfold Exact.cmp_int.
    intros H. destruct (y ?= inject_Z m) eqn:E; try discriminate.
    + apply Qeq_alt in E. rewrite E. apply Qle_refl.
    + apply Qgt_alt in E. apply Qlt_le_weak. assumption.
Qed.

(** A target payment that is not below the minimum payment retires the
    principal within [T * F] executions of the loop body. *)
Lemma payoff_within_term (P r : Q) (T F : Z) (target : pynum Q) (m : Z) :
  0 < r -> (1 <= T)%Z -> (1 <= F)%Z ->
  get_min_payment P r T F = Ret m ->
  pynum_lt_int target m = false ->
  exists k, (0 <= k <= T * F)%Z /\
    forall fuel, (Z.to_nat (T * F) <= fuel)%nat ->
      remaining_payments fuel P r target F = Ret k.
Proof.
  intros Hr HT HF Hmin Htarget.
  rewrite get_min_payment_exact in Hmin by assumption.
  injection Hmin as Hm.
  pose proof (target_at_least_min target m Htarget) as Hge.
  pose proof (Qle_ceiling (Exact.annuity P r T F)) as Hceil.
  rewrite Hm in Hceil.
  assert (HA : Exact.annuity P r T F <= Exact.value target) by lra.
  assert (Hn : Z.of_nat (Z.to_nat (T * F)) = (T * F)%Z)
    by (apply Z2Nat.id; nia).
  destruct (payoff_loop_within r target F (Exact.annuity P r T F)
              (Z.to_nat (T * F)) HF Hr HA P 0%Z) as (k & Hk & Hrun).
  - rewrite Hn. rewrite annuity_equation by assumption. lra.
  - exists k. split; [lia |]. intros fuel Hfuel.
    unfold remaining_payments. rewrite Hrun by assumption. reflexivity.
Qed.

(** X13.  In exact arithmetic, for a principal [P >= 0], an
    annual rate [0 < r <= 1], [T >= 1] years and [F >= 1] payments a year:
    when [get_min_payment] returns [m] and the target payment is not below
    [m], [remaining_payments] returns a count of at most [T * F], and it does
    so within [T * F] executions of the loop body. *)
Theorem exact_payoff_within_term (P r : Q) (T F : Z) (target : pynum Q)
    (m : Z) :
  0 <= P -> 0 < r -> r <= 1 -> (1 <= T)%Z -> (1 <= F)%Z ->
  get_min_payment P r T F = Ret m ->
  pynum_lt_int target m = false ->
  exists k, (0 <= k <= T * F)%Z /\
    forall fuel, (Z.to_nat (T * F) <= fuel)%nat ->
      remaining_payments fuel P r target F = Ret k.
Proof.
  intros _ Hr _ HT HF Hmin Htarget.
  apply (payoff_within_term P r T F target m); assumption.
Qed.

Lemma growth_bound (rho : Q) (j : nat) :
  0 < rho ->
  (1 + rho) ^ Z.of_nat j - 1
    <= inject_Z (Z.of_nat j) * rho * (1 + rho) ^ Z.of_nat j.
Proof.
  intros Hrho. induction j as [| j IH].
  - change ((1 + rho) ^ Z.of_nat 0) with 1. change (inject_Z (Z.of_nat 0)) with 0.
    lra.
  - rewrite Qpower_succ. rewrite Nat2Z.inj_succ. unfold Z.succ.
    rewrite inject_Z_plus. change (inject_Z 1) with 1.
    assert (Hy : 0 < (1 + rho) ^ Z.of_nat j) by (apply Qpower_0_lt; lra).
    set (y := (1 + rho) ^ Z.of_nat j) in *.
    assert (Hj : 0 <= inject_Z (Z.of_nat j)).
    { change 0 with (inject_Z 0). rewrite <- Zle_Qle. lia. }
    set (c := inject_Z (Z.of_nat j)) in *.
    assert (0 <= c * rho * y * rho).
    { apply Qmult_le_0_compat; [| lra]. apply Qmult_le_0_compat; [| lra].
      apply Qmult_le_0_compat; lra. }
    assert (0 <= rho * rho * y).
    { apply Qmult_le_0_compat; [| lra]. apply Qmult_le_0_compat; lra. }
    nra.
Qed.

(** X11.  In exact arithmetic, for [P >= 0], a rate [0 < r <= 1], [T >= 1]
    and [F >= 1]: the payment returned by [get_min_payment], paid [T * F]
    times, is at least the principal. *)
Lemma exact_min_payment_repays_principal (P r : Q) (T F m : Z) :
  0 <= P -> 0 < r -> r <= 1 -> (1 <= T)%Z -> (1 <= F)%Z ->
  get_min_payment P r T F = Ret m ->
  P <= inject_Z (m * (T * F)).
Proof.
  intros HP Hr Hr1 HT HF Hmin.
  rewrite get_min_payment_exact in Hmin by assumption.
  injection Hmin as Hm.
  pose proof (Qle_ceiling (Exact.annuity P r T F)) as Hceil. rewrite Hm in Hceil.
  pose proof (annuity_equation P r T F HT HF Hr) as Heq.
  pose proof (growth_above_one r T F HT HF Hr) as Hq.
  pose proof (periodic_rate_positive r F HF Hr) as Hrho.
  pose proof (growth_bound (r / inject_Z F) (Z.to_nat (T * F)) Hrho) as Hg.
  rewrite Z2Nat.id in Hg by nia.
  change (inject_Z 1) with 1 in *.
  set (rho := r / inject_Z F) in *. set (q := (1 + rho) ^ (T * F)) in *.
  set (A := Exact.annuity P r T F) in *.
  rewrite inject_Z_mult.
  assert (Hn : 1 <= inject_Z (T * F)).
  { change 1 with (inject_Z 1). rewrite <- Zle_Qle. nia. }
  set (n := inject_Z (T * F)) in *.
  assert (HA : 0 <= A).
  { assert (0 <= A * (q - 1)).
    { rewrite Heq. apply Qmult_le_0_compat; [| lra].
      apply Qmult_le_0_compat; lra. }
    nra. }
  assert (Hrq : 0 < rho * q) by (apply Qmult_lt_0_compat; lra).
  (* P * (rho*q) = A*(q-1) <= A * n * (rho * q) *)
  assert (H1 : P * (rho * q) <= A * n * (rho * q)).
  { assert (A * (q - 1) <= A * (n * rho * q)).
    { assert (0 <= A * (n * rho * q - (q - 1))).
      { apply Qmult_le_0_compat; lra. }
      lra. }
    nra. }
  assert (H2 : P <= A * n).
  { apply Qmult_le_r with (z := rho * q); assumption. }
  assert (A * n <= inject_Z m * n).
  { apply Qmult_le_compat_r; lra. }
  lra.
Qed.

(** The principal portion after [k] steps is the first one, grown [k]
    times by [1 + rho]. *)
Lemma principal_portion_after r t F B :
  (1 <= F)%Z ->
  forall k, exists b,
    balance_after r t F B k = Ret b /\
    Exact.value t - b * (r / inject_Z F)
    == (Exact.value t - B * (r / inject_Z F)) * (1 + r / inject_Z F) ^ Z.of_nat k.
Proof.
  intros HF. induction k as [| k (b & Hb & Hp)].
  - exists B. split; [reflexivity |].
    change ((1 + r / inject_Z F) ^ Z.of_nat 0) with 1. ring.
  - cbn [balance_after]. rewrite Hb. cbn [bind].
    rewrite payoff_step_exact by assumption.
    eexists. split; [reflexivity |].
    rewrite Qpower_succ.
    set (rho := r / inject_Z F) in *.
    set (y := (1 + rho) ^ Z.of_nat k) in *.
    transitivity ((Exact.value t - b * rho) * (1 + rho)); [ring |].
    rewrite Hp. ring.
Qed.

Lemma payoff_loop_terminates r t F B d :
  (1 <= F)%Z -> 0 <= r -> 0 < d -> d <= Exact.value t - B * (r / inject_Z F) ->
  forall (j : nat) b p,
    b <= B -> b <= inject_Z (Z.of_nat j) * d ->
    exists k, (0 <= k <= Z.of_nat j)%Z /\
      forall fuel, (j <= fuel)%nat ->
        payoff_loop r t F fuel b p = Ret (p + k)%Z.
Proof.
  intros HF Hr Hd Hfirst.
  pose proof (periodic_rate_nonneg r F HF Hr) as Hrho.
  set (rho := r / inject_Z F) in *.
  induction j as [| j IH]; intros b p HbB Hb.
  - exists 0%Z. split; [lia |]. intros fuel _.
    rewrite Z.add_0_r. apply payoff_loop_exit. apply gt_int_0_false.
    change (inject_Z (Z.of_nat 0)) with 0 in Hb. lra.
  - destruct (float_gt_int (PF := exact) b 0) eqn:Hgt.
    + rewrite Nat2Z.inj_succ in Hb. unfold Z.succ in Hb.
      rewrite inject_Z_plus in Hb. change (inject_Z 1) with 1 in Hb.
      assert (Hprod : 0 <= (B - b) * rho)
        by (apply Qmult_le_0_compat; lra).
      destruct (IH (b - (Exact.value t - b * rho)) (p + 1)%Z) as (k & Hk & Hrun);
        [nra | nra |].
      exists (1 + k)%Z. split; [lia |].
      intros fuel Hfuel. destruct fuel as [| fuel]; [lia |].
      rewrite payoff_loop_body by assumption.
      rewrite payoff_step_exact by assumption. cbn [bind].
      fold rho. rewrite Hrun by lia. f_equal. lia.
    + exists 0%Z. split; [lia |]. intros fuel _.
      rewrite Z.add_0_r. apply payoff_loop_exit. assumption.
Qed.

Lemma payoff_loop_never_returns r t F :
  (1 <= F)%Z -> 0 <= r ->
  forall fuel b p,
    0 < b -> Exact.value t <= b * (r / inject_Z F) ->
    payoff_loop r t F fuel b p = OutOfFuel.
Proof.
  intros HF Hr.
  pose proof (periodic_rate_nonneg r F HF Hr) as Hrho.
  set (rho := r / inject_Z F) in *.
  induction fuel as [| fuel IH]; intros b p Hb Ht.
  - apply payoff_loop_stuck. apply gt_int_0. assumption.
  - rewrite payoff_loop_body by (apply gt_int_0; assumption).
    rewrite payoff_step_exact by assumption. cbn [bind]. fold rho.
    assert (0 <= (b * rho - Exact.value t) * rho)
      by (apply Qmult_le_0_compat; lra).
    apply IH; nra.
Qed.

Lemma first_portion_positive (P r : Q) (T F : Z) (t : pynum Q) (m : Z) :
  0 < P -> 0 < r -> (1 <= T)%Z -> (1 <= F)%Z ->
  get_min_payment P r T F = Ret m -> pynum_lt_int t m = false ->
  0 < Exact.value t - P * (r / inject_Z F).
Proof.
  intros HP Hr HT HF Hmin Ht.
  rewrite get_min_payment_exact in Hmin by assumption.
  injection Hmin as Hm.
  pose proof (target_at_least_min t m Ht) as Hge.
  pose proof (Qle_ceiling (Exact.annuity P r T F)) as Hceil. rewrite Hm in Hceil.
  pose proof (annuity_equation P r T F HT HF Hr) as Heq.
  pose proof (growth_above_one r T F HT HF Hr) as Hq.
  pose proof (periodic_rate_positive r F HF Hr) as Hrho.
  change (inject_Z 1) with 1 in *.
  set (rho := r / inject_Z F) in *. set (q := (1 + rho) ^ (T * F)) in *.
  set (A := Exact.annuity P r T F) in *.
  assert (0 < P * rho) by (apply Qmult_lt_0_compat; assumption).
  assert (HA : P * rho < A).
  { destruct (Qlt_le_dec (P * rho) A) as [| Hle]; [assumption |].
    assert (0 <= (P * rho - A) * (q - 1))
      by (apply Qmult_le_0_compat; lra).
    nra. }
  lra.
Qed.

Lemma stays_positive_from_first r t F B :
  (1 <= F)%Z -> 0 <= r -> 0 < Exact.value t - B * (r / inject_Z F) ->
  principal_portion_stays_positive B r t F.
Proof.
  intros HF Hr Hfirst k b Hk _.
  pose proof (periodic_rate_nonneg r F HF Hr) as Hrho.
  destruct (principal_portion_after r t F B HF k) as (b' & Hb' & Hp).
  rewrite Hk in Hb'. injection Hb' as <-.
  rewrite principal_portion_exact by assumption.
  eexists. split; [reflexivity |]. rewrite Hp.
  apply Qmult_lt_0_compat; [assumption |]. apply Qpower_0_lt. lra.
Qed.

(** C7 (as amended).  In exact arithmetic, for a balance [B > 0], an annual
    rate [0 <= r <= 1] and [F >= 1] payments a year:
    - if the principal portion stays strictly positive at every step, the
      loop of [remaining_payments] ends and returns a count;
    - it does stay strictly positive when the rate is positive and the target
      payment is not below the minimum payment computed for [B];
    - if at some step the principal portion is zero or negative (the target
      payment does not exceed the interest due), the balance never decreases
      from one step to the next and the loop never returns. *)
Theorem exact_payoff_loop_termination (B r : Q) (t : pynum Q) (F : Z) :
  0 < B -> 0 <= r -> r <= 1 -> (1 <= F)%Z ->
  (principal_portion_stays_positive B r t F ->
     exists k fuel0, forall fuel, (fuel0 <= fuel)%nat ->
       remaining_payments fuel B r t F = Ret k) /\
  (forall T m, 0 < r -> (1 <= T)%Z ->
     get_min_payment B r T F = Ret m -> pynum_lt_int t m = false ->
     principal_portion_stays_positive B r t F) /\
  ((exists k b p, balance_after r t F B k = Ret b /\
                  principal_portion r t F b = Ret p /\ p <= 0) ->
     (forall j b b', balance_after r t F B j = Ret b ->
                     balance_after r t F B (S j) = Ret b' -> b <= b') /\
     forall fuel, remaining_payments fuel B r t F = OutOfFuel).
Proof.
  intros HB Hr Hr1 HF.
  pose proof (periodic_rate_nonneg r F HF Hr) as Hrho.
  split; [| split].
  - intros Hpos.
    destruct (Hpos O B eq_refl HB) as (d & Hd & Hd0).
    rewrite principal_portion_exact in Hd by assumption.
    injection Hd as <-.
    set (d := Exact.value t - B * (r / inject_Z F)) in *.
    set (j := Z.to_nat (Qceiling (B / d))).
    assert (Hj : B <= inject_Z (Z.of_nat j) * d).
    { pose proof (Qle_ceiling (B / d)) as Hle.
      assert (Hmax : inject_Z (Qceiling (B / d)) <= inject_Z (Z.of_nat j)).
      { rewrite <- Zle_Qle. unfold j. lia. }
      assert (HBd : B == B / d * d) by (field; lra).
      rewrite HBd at 1. apply Qmult_le_compat_r; lra. }
    destruct (payoff_loop_terminates r t F B d HF Hr Hd0 (Qle_refl d) j B 0%Z
                (Qle_refl B) Hj) as (k & _ & Hrun).
    exists k, j. intros fuel Hfuel. unfold remaining_payments.
    rewrite Hrun by assumption. reflexivity.
  - intros T m Hr0 HT Hmin Ht. apply stays_positive_from_first; try assumption.
    eapply first_portion_positive; eassumption.
  - intros (k & b & p & Hk & Hp & Hp0).
    rewrite principal_portion_exact in Hp by assumption. injection Hp as <-.
    destruct (principal_portion_after r t F B HF k) as (b' & Hb' & Hpk).
    rewrite Hk in Hb'. injection Hb' as <-.
    assert (Hfirst : Exact.value t - B * (r / inject_Z F) <= 0).
    { assert (Hy : 0 < (1 + r / inject_Z F) ^ Z.of_nat k)
        by (apply Qpower_0_lt; lra).
      set (y := (1 + r / inject_Z F) ^ Z.of_nat k) in *.
      set (d := Exact.value t - B * (r / inject_Z F)) in *.
      destruct (Qlt_le_dec 0 d) as [Hd |]; [| assumption].
      pose proof (Qmult_lt_0_compat _ _ Hd Hy). lra. }
    split.
    + intros j bj bj' Hj Hj'.
      destruct (principal_portion_after r t F B HF j) as (c & Hc & Hpj).
      rewrite Hj in Hc. injection Hc as <-.
      cbn [balance_after] in Hj'. rewrite Hj in Hj'. cbn [bind] in Hj'.
      rewrite payoff_step_exact in Hj' by assumption. injection Hj' as <-.
      assert (Hy : 0 < (1 + r / inject_Z F) ^ Z.of_nat j)
        by (apply Qpower_0_lt; lra).
      set (y := (1 + r / inject_Z F) ^ Z.of_nat j) in *.
      set (d := Exact.value t - B * (r / inject_Z F)) in *.
      assert (0 <= (- d) * y) by (apply Qmult_le_0_compat; lra).
      lra.
    + intros fuel. apply payoff_loop_never_returns; try assumption. lra.
Qed.

(** The division by zero at rate zero does not come from rounding: it is
    there in exact arithmetic too. *)
Lemma exact_get_min_payment_zero_rate (P r : Q) (T F : Z) :
  r == 0 -> (1 <= F)%Z ->
  get_min_payment P r T F = Raise ZeroDivisionError.
Proof.
  intros Hr HF. unfold get_min_payment.
  rewrite div_by_frequency by assumption. cbn [bind].
  unfold int_add_float, float_sub_int.
  cbn [float_of_int float_add float_sub float_mul float_div float_pow_int
       math_ceil exact].
  unfold Exact.of_int. cbn [bind]. unfold Exact.pow_int.
  assert (Hbase : inject_Z 1 + r / inject_Z F == 1).
  { rewrite Hr. change (inject_Z 1) with 1. unfold Qdiv.
    rewrite Qmult_0_l. ring. }
  set (base := inject_Z 1 + r / inject_Z F) in *.
  assert (Hnz : Qeq_bool base 0 = false).
  { destruct (Qeq_bool base 0) eqn:E; [| reflexivity].
    apply Qeq_bool_iff in E. rewrite Hbase in E. discriminate. }
  rewrite Hnz. cbn [andb bind]. unfold Exact.div.
  assert (Hz : Qeq_bool (base ^ (T * F) - inject_Z 1) 0 = true).
  { apply Qeq_bool_iff. rewrite Hbase, Qpower_1. reflexivity. }
  rewrite Hz. reflexivity.
Qed.

Lemma exact_payoff_within_term_witness :
  0 <= 1000 /\ 0 < 1 # 2 /\ 1 # 2 <= 1 /\ (1 <= 2)%Z /\ (1 <= 1)%Z /\
  get_min_payment (1000 : Q) (1 # 2) 2 1 = Ret 900%Z /\
  pynum_lt_int (PInt 900 : pynum Q) 900 = false /\
  exists k, (0 <= k <= 2 * 1)%Z /\
    forall fuel, (Z.to_nat (2 * 1) <= fuel)%nat ->
      remaining_payments fuel (1000 : Q) (1 # 2) (PInt 900) 1 = Ret k.
Proof.
  assert (Hmin : get_min_payment (1000 : Q) (1 # 2) 2 1 = Ret 900%Z)
    by (vm_compute; reflexivity).
  repeat (split; [first [exact Hmin | reflexivity | lra | lia] |]).
  apply (exact_payoff_within_term 1000 (1 # 2) 2 1 (PInt 900) 900);
    first [exact Hmin | reflexivity | lra | lia].
Defined.

Lemma exact_payoff_loop_termination_witness :
  0 < 1000 /\ 0 <= 1 # 10 /\ 1 # 10 <= 1 /\ (1 <= 1)%Z /\
  get_min_payment (1000 : Q) (1 # 10) 1 1 = Ret 1100%Z /\
  principal_portion_stays_positive 1000 (1 # 10) (PInt 1100) 1 /\
  exists k fuel0, forall fuel, (fuel0 <= fuel)%nat ->
    remaining_payments fuel (1000 : Q) (1 # 10) (PInt 1100) 1 = Ret k.
Proof.
  assert (Hmin : get_min_payment (1000 : Q) (1 # 10) 1 1 = Ret 1100%Z)
    by (vm_compute; reflexivity).
  assert (H1 : 0 < 1000) by lra.
  assert (H2 : 0 <= 1 # 10) by lra.
  assert (H3 : 1 # 10 <= 1) by lra.
  assert (H4 : (1 <= 1)%Z) by lia.
  destruct (exact_payoff_loop_termination 1000 (1 # 10) (PInt 1100) 1
              H1 H2 H3 H4) as (Hends & Hpositive & _).
  assert (Hstays : principal_portion_stays_positive 1000 (1 # 10)
                     (PInt 1100) 1).
  { apply (Hpositive 1%Z 1100%Z); [lra | lia | exact Hmin | reflexivity]. }
  repeat (split; [assumption |]).
  apply Hends. exact Hstays.
Defined.

End OnExact.

(** ** The default target payment *)

(** C3 (as amended).  Without a target payment [main] uses the minimum
    payment [m] itself, whatever the arithmetic: it never prints the too-low
    line, it calls [remaining_payments] with the [int] [m] and reports the
    count that call returns.  That count need not be [T * F]; in exact
    arithmetic, for a principal [P >= 0], a rate [0 < r <= 1], [T >= 1] and
    [F >= 1], it is at most [T * F]. *)
Theorem main_default_target :
  (forall (PF : PyFloat) (fuel : nat) (P r : float) (T n m : Z),
     get_min_payment P r T n = Ret m ->
     main fuel P r T n None =
       report_payoff P r n (PInt m) m
         (remaining_payments fuel P r (PInt m) n)) /\
  (forall (P r : Q) (T F m : Z),
     (0 <= P)%Q -> (0 < r)%Q -> (r <= 1)%Q -> 1 <= T -> 1 <= F ->
     get_min_payment (PF := exact) P r T F = Ret m ->
     exists k, 0 <= k <= T * F /\
       forall fuel, (Z.to_nat (T * F) <= fuel)%nat ->
         main (PF := exact) fuel P r T F None =
           ([Print (MinimumPayment m);
             Call_remaining_payments P r (PInt m) F;
             Print (Payoff (PInt m) k)], Ret tt)).
Proof.
  split.
  - intros PF fuel P r T n m Hmin.
    rewrite (main_after_min_payment fuel P r T n None m Hmin).
    simpl. rewrite Z.ltb_irrefl. reflexivity.
  - intros P r T F m _ Hr _ HT HF Hmin.
    destruct (payoff_within_term P r T F (PInt m) m Hr HT HF Hmin)
      as (k & Hk & Hrun).
    { simpl. apply Z.ltb_irrefl. }
    exists k. split; [exact Hk |]. intros fuel Hfuel.
    rewrite (main_after_min_payment (PF := exact) fuel P r T F None m Hmin).
    simpl. rewrite Z.ltb_irrefl. unfold report_payoff.
    rewrite (Hrun fuel Hfuel). reflexivity.
Qed.

Lemma main_default_target_witness :
  get_min_payment (PF := binary64) (Binary64.round_int 1000) (decimal 5 1)
    2 1 = Ret 900 /\
  main (PF := binary64) 2 (Binary64.round_int 1000) (decimal 5 1) 2 1 None =
    report_payoff (PF := binary64) (Binary64.round_int 1000) (decimal 5 1)
      1 (PInt 900) 900
      (remaining_payments (PF := binary64) 2 (Binary64.round_int 1000)
         (decimal 5 1) (PInt 900) 1) /\
  get_min_payment (PF := exact) 1000%Q (1 # 2)%Q 2 1 = Ret 900 /\
  exists k, 0 <= k <= 2 * 1 /\
    forall fuel, (Z.to_nat (2 * 1) <= fuel)%nat ->
      main (PF := exact) fuel 1000%Q (1 # 2)%Q 2 1 None =
        ([Print (MinimumPayment 900);
          Call_remaining_payments 1000%Q (1 # 2)%Q (PInt 900) 1;
          Print (Payoff (PInt 900) k)], Ret tt).
Proof.
  assert (Hmin : get_min_payment (PF := binary64) (Binary64.round_int 1000)
                   (decimal 5 1) 2 1 = Ret 900) by (vm_compute; reflexivity).
  assert (Hmin' : get_min_payment (PF := exact) 1000%Q (1 # 2)%Q 2 1
                  = Ret 900) by (vm_compute; reflexivity).
  split; [exact Hmin |]. split.
  - apply (proj1 main_default_target binary64 2%nat _ _ 2 1 900 Hmin).
  - split; [exact Hmin' |].
    apply (proj2 main_default_target 1000%Q (1 # 2)%Q 2 1 900);
      first [exact Hmin' | lra | lia].
Defined.

(** ** The guard on the target payment *)



(** ** The C library does not matter to the runs above *)

Section AnyLibm.

Variable round_up : Binary64.libm.

#[local] Hint Extern 0 PyFloat => exact (binary64_with round_up)
  : typeclass_instances.

Import Binary64.

(** With the correctly rounded library [libm_pow] is [nearest_pow]. *)
Lemma libm_pow_correctly_rounded (m : positive) (e k : Z) :
  libm_pow correctly_rounded m e k = nearest_pow m e k.
Proof.
  unfold libm_pow, correctly_rounded.
  destruct (cmp_pow (nearest_pow m e k) m e k); reflexivity.
Qed.

(** The minimum payments computed in the runs of this file only take powers
    that are doubles themselves ([1.0 ** 12], [2.0 ** 2], [x ** 1],
    [2.0 ** 60], [1.5 ** 2]): they are the same with every C library. *)
Lemma min_payments_on_every_libm :
  get_min_payment (round_int 12000) zero 1 12 = Raise ZeroDivisionError /\
  get_min_payment (round_int 1) (round_int 1) 2 1 = Ret 2 /\
  get_min_payment (round_int 1000000) (round_pos 3 (-54)) 1 1 = Ret 750001 /\
  get_min_payment (round_int 1000000) one 60 1 = Ret 1000000 /\
  get_min_payment (round_int 1000) (decimal 5 1) 2 1 = Ret 900.
Proof. repeat split; vm_compute; reflexivity. Qed.

End AnyLibm.

(** * More properties of the module *)

(** ** For every implementation of [float] *)

Section MoreGeneric.

Context {PF : PyFloat}.

(** The balance after one more step, peeling the first step instead of the
    last one. *)
Lemma balance_after_first r t n b (j : nat) :
  balance_after r t n b (S j) =
  bind (payoff_step r t n b) (fun b' => balance_after r t n b' j).
Proof.
  induction j as [| j IH].
  - simpl. destruct (payoff_step r t n b); reflexivity.
  - change (balance_after r t n b (S (S j)))
      with (bind (balance_after r t n b (S j)) (payoff_step r t n)).
    rewrite IH, bind_assoc. reflexivity.
Qed.

Lemma payoff_loop_count r t n fuel :
  forall b p k, payoff_loop r t n fuel b p = Ret k ->
    exists j : nat,
      k = p + Z.of_nat j /\ (j <= fuel)%nat /\
      (exists bj, balance_after r t n b j = Ret bj /\
                  float_gt_int bj 0 = false) /\
      forall i, (i < j)%nat ->
        exists bi, balance_after r t n b i = Ret bi /\
                   float_gt_int bi 0 = true.
Proof.
  induction fuel as [| fuel IH]; intros b p k Hrun.
  - destruct (float_gt_int b 0) eqn:Hb.
    + rewrite payoff_loop_stuck in Hrun by assumption. discriminate.
    + rewrite payoff_loop_exit in Hrun by assumption. injection Hrun as <-.
      exists O. repeat split; [lia | lia | | intros i Hi; lia].
      exists b. split; [reflexivity | assumption].
  - destruct (float_gt_int b 0) eqn:Hb.
    + rewrite payoff_loop_body in Hrun by assumption.
      destruct (payoff_step r t n b) as [b' | e | ] eqn:Hstep;
        simpl in Hrun; try discriminate.
      destruct (IH b' (p + 1) k Hrun) as (j & Hk & Hj & (bj & Hbj & Hneg) & Hpos).
      exists (S j). repeat split; [lia | lia | |].
      * exists bj. rewrite balance_after_first, Hstep. simpl. split; assumption.
      * intros i Hi. destruct i as [| i].
        -- exists b. split; [reflexivity | assumption].
        -- rewrite balance_after_first, Hstep. simpl. apply Hpos. lia.
    + rewrite payoff_loop_exit in Hrun by assumption. injection Hrun as <-.
      exists O. repeat split; [lia | lia | | intros i Hi; lia].
      exists b. split; [reflexivity | assumption].
Qed.

(** X1.  When [remaining_payments] returns [k], exactly [k] executions of
    the loop body took place: the balance was positive before each of them
    and is no longer positive after the last one; [k] is between 0 and the
    number of body executions allowed. *)
Theorem remaining_payments_counts_positive_balances
    (fuel : nat) (B r : float) (t : pynum float) (n k : Z) :
  remaining_payments fuel B r t n = Ret k ->
  0 <= k <= Z.of_nat fuel /\
  (exists b, balance_after r t n B (Z.to_nat k) = Ret b /\
             float_gt_int b 0 = false) /\
  forall i, (i < Z.to_nat k)%nat ->
    exists bi, balance_after r t n B i = Ret bi /\ float_gt_int bi 0 = true.
Proof.
  intros Hrun. unfold remaining_payments in Hrun.
  destruct (payoff_loop_count r t n fuel B 0 k Hrun)
    as (j & Hk & Hj & Hexit & Hpos).
  assert (Hjk : Z.to_nat k = j) by lia. rewrite Hjk.
  repeat split; [lia | lia | exact Hexit | exact Hpos].
Qed.

(** X3.  What [main] prints.  If [get_min_payment] raises, nothing is printed
    and the exception leaves [main].  Otherwise the minimum payment line
    comes first; when [main] returns it is followed by exactly one line, the
    too-low line or the payoff line for the payment in use, and when the
    payoff loop raises or does not end it is the only line. *)
Theorem main_output_shape (fuel : nat) (P r : float) (T n : Z)
    (target : option float) :
  match get_min_payment P r T n with
  | Ret m =>
      match snd (main fuel P r T n target) with
      | Ret _ =>
          printed (fst (main fuel P r T n target)) = [MinimumPayment m; TargetTooLow] \/
          exists k, printed (fst (main fuel P r T n target)) =
                      [MinimumPayment m; Payoff (resolved_target target m) k]
      | _ => printed (fst (main fuel P r T n target)) = [MinimumPayment m]
      end
  | Raise e => main fuel P r T n target = ([], Raise e)
  | OutOfFuel => main fuel P r T n target = ([], OutOfFuel)
  end.
Proof.
  destruct (get_min_payment P r T n) as [m | e | ] eqn:Hmin.
  - rewrite (main_after_min_payment fuel P r T n target m Hmin).
    destruct (pynum_lt_int (resolved_target target m) m).
    + simpl. left. reflexivity.
    + unfold report_payoff.
      destruct (remaining_payments fuel P r (resolved_target target m) n)
        as [k | e | ]; simpl; [right; exists k |..]; reflexivity.
  - unfold main. rewrite Hmin. reflexivity.
  - unfold main. rewrite Hmin. reflexivity.
Qed.

End MoreGeneric.

Section MoreCommandLine.
Context {PF : PyFloat}.
Variable parser : list string -> res (namespace float).

(** X2.  A namespace returned by [parse_args] is the one the parser made of
    [sys.argv[1:]], unchanged, and it satisfies every test: the amount is not
    below 0, [0 <= rate <= 1], [years >= 1], the number of payments per year
    is at least 0 (0 included) and the target payment is not negative. *)
Theorem parse_args_returns_valid_namespace
    (arglist sys_argv : list string) (args : namespace float) :
  parse_args parser arglist sys_argv = Ret args ->
  parser (tl sys_argv) = Ret args /\
  float_lt_int (mortgage_amount args) 0 = false /\
  int_le_float 0 (annual_interest_rate args) = true /\
  float_le_int (annual_interest_rate args) 1 = true /\
  1 <= years args /\
  0 <= num_annual_payments args /\
  target_payment_negative (target_payment args) = false.
Proof.
  unfold parse_args, ArgumentParser_parse_args.
  destruct (parser (tl sys_argv)) as [a | e | ]; simpl; try discriminate.
  unfold validate.
  destruct (float_lt_int (mortgage_amount a) 0) eqn:H1; try discriminate.
  destruct (int_le_float 0 (annual_interest_rate a)) eqn:H2;
    simpl; try discriminate.
  destruct (float_le_int (annual_interest_rate a) 1) eqn:H3;
    simpl; try discriminate.
  destruct (years a <? 1) eqn:H4; try discriminate.
  destruct (num_annual_payments a <? 0) eqn:H5; try discriminate.
  destruct (target_payment_negative (target_payment a)) eqn:H6;
    try discriminate.
  intros E. injection E as <-.
  apply Z.ltb_ge in H4, H5. repeat split; assumption || reflexivity.
Qed.

End MoreCommandLine.

(** ** On binary64 *)

Section MoreBinary64.

(** The C library is arbitrary in this section. *)
Variable round_up : Binary64.libm.

#[local] Hint Extern 0 PyFloat => exact (binary64_with round_up)
  : typeclass_instances.

Import Binary64.

(** X4.  With zero payments per year every division by [num_of_payments]
    raises: [get_min_payment] and [interest_due] raise [ZeroDivisionError]
    whatever their other arguments, and [remaining_payments] raises it in
    its first iteration when the balance is positive (it returns 0
    otherwise). *)
Theorem zero_frequency_raises (fuel : nat) (P r b : spec_float) (T : Z)
    (t : pynum spec_float) :
  get_min_payment P r T 0 = Raise ZeroDivisionError /\
  interest_due b r 0 = Raise ZeroDivisionError /\
  remaining_payments (S fuel) b r t 0 =
    if float_gt_int b 0 then Raise ZeroDivisionError else Ret 0.
Proof.
  split; [reflexivity | split; [reflexivity |]].
  unfold remaining_payments.
  destruct (float_gt_int (PF := binary64_with round_up) b 0) eqn:Hb.
  - rewrite payoff_loop_body by assumption. reflexivity.
  - apply payoff_loop_exit. assumption.
Qed.

Lemma of_int_returns_or_overflows z :
  (exists y, of_int z = Ret y) \/ of_int z = Raise OverflowError.
Proof.
  unfold of_int. destruct (is_finite (round_int z)); [left; eexists |right]; reflexivity.
Qed.

Lemma div_returns_or_raises x y :
  (exists q, div x y = Ret q /\ is_zero y = false /\ q = SFdiv prec emax x y)
  \/ div x y = Raise ZeroDivisionError.
Proof.
  unfold div. destruct (is_zero y); [right | left; eexists; repeat split]; reflexivity.
Qed.

Lemma float_pow_returns_or_raises x w :
  (exists q, float_pow round_up x w = Ret q) \/
  (exists e, float_pow round_up x w = Raise e).
Proof.
  unfold float_pow.
  destruct (is_zero w); [left; eexists; reflexivity |].
  destruct (is_nan x); [left; eexists; reflexivity |].
  destruct x as [s | s | | s m e].
  - destruct (to_int w <? 0); [right | left]; eexists; reflexivity.
  - destruct (0 <? to_int w); left; eexists; reflexivity.
  - left; eexists; reflexivity.
  - destruct (is_one (S754_finite false m e)); [left; eexists; reflexivity |].
    destruct (is_infinity (libm_pow round_up m e (to_int w)));
      [right | left]; eexists; reflexivity.
Qed.

Lemma pow_int_returns_or_raises x n :
  (exists q, pow_int round_up x n = Ret q) \/
  (exists e, pow_int round_up x n = Raise e).
Proof.
  unfold pow_int. destruct (of_int_returns_or_overflows n) as [(w & ->) | ->];
    simpl; [apply float_pow_returns_or_raises | right; eexists; reflexivity].
Qed.

Lemma ceil_nonfinite_raises x :
  is_finite x = false -> exists e, ceil x = Raise e.
Proof. destruct x; simpl; try discriminate; intros _; eexists; reflexivity. Qed.

Lemma mul_nonfinite x y : is_finite x = false -> is_finite (mul x y) = false.
Proof. destruct x, y; simpl; try discriminate; reflexivity. Qed.

Lemma SFdiv_nonfinite x y :
  is_finite x = false -> is_zero y = false ->
  is_finite (SFdiv prec emax x y) = false.
Proof. destruct x, y; simpl; try discriminate; reflexivity. Qed.

(** X5.  For a principal that is a NaN or an infinity [get_min_payment]
    never returns a payment: whatever the rate, the term and the frequency,
    it raises (the annuity is then a NaN or an infinity, which [math.ceil]
    refuses, unless an earlier operation has raised). *)
Theorem get_min_payment_nonfinite_principal (P r : spec_float) (T F : Z) :
  is_finite P = false ->
  exists e, get_min_payment P r T F = Raise e.
Proof.
  intros HP.
  unfold get_min_payment, float_div_int, int_add_float, float_sub_int.
  cbn [float_of_int float_div float_pow_int float_add float_sub float_mul
       math_ceil binary64_with].
  destruct (of_int_returns_or_overflows F) as [(y & ->) | ->];
    [cbn [bind] | eexists; reflexivity].
  destruct (div_returns_or_raises r y) as [(r' & -> & _) | ->];
    [cbn [bind] | eexists; reflexivity].
  rewrite of_int_1. cbn [bind].
  destruct (pow_int_returns_or_raises (add one r') (T * F))
    as [(q & ->) | (e & ->)]; [cbn [bind] | eexists; reflexivity].
  destruct (div_returns_or_raises (mul P (mul r' q)) (sub q one))
    as [(A & -> & Hz & ->) | ->]; [cbn [bind] | eexists; reflexivity].
  destruct (ceil_nonfinite_raises (SFdiv prec emax (mul P (mul r' q)) (sub q one)))
    as (e & ->); [| eexists; reflexivity].
  apply SFdiv_nonfinite; [apply mul_nonfinite; assumption | assumption].
Qed.

(** X6.  A NaN target payment passes validation and the too-low test (every
    comparison with a NaN is false); the first payment turns the balance
    into a NaN, the loop test fails, and [main] reports a payoff in 1
    payment, for every positive principal. *)
Theorem nan_target_reports_one_payment (fuel : nat) (P r : spec_float)
    (T F m : Z) :
  get_min_payment P r T F = Ret m ->
  float_gt_int P 0 = true ->
  target_payment_negative (Some S754_nan) = false /\
  main (S fuel) P r T F (Some S754_nan) =
    ([Print (MinimumPayment m);
      Call_remaining_payments P r (PFloat S754_nan) F;
      Print (Payoff (PFloat S754_nan) 1)], Ret tt).
Proof.
  intros Hmin HP. split; [reflexivity |].
  rewrite (main_after_min_payment (PF := binary64_with round_up) (S fuel) P r T F
             (Some S754_nan) m Hmin).
  cbn [resolved_target pynum_lt_int]. 
  replace (float_lt_int (PF := binary64_with round_up) S754_nan m) with false by reflexivity.
  unfold report_payoff, remaining_payments.
  rewrite payoff_loop_body by assumption.
  assert (Hr : exists r', float_div_int (PF := binary64_with round_up) r F = Ret r').
  { revert Hmin. unfold get_min_payment.
    destruct (float_div_int (PF := binary64_with round_up) r F) as [r' | e | ]; simpl; try discriminate.
    intros _. exists r'. reflexivity. }
  destruct Hr as (r' & Hr).
  unfold payoff_step, principal_portion, interest_due. rewrite Hr.
  cbn [bind pynum_sub_float float_sub float_mul binary64_with].
  replace (sub S754_nan (mul P r')) with S754_nan by reflexivity.
  replace (sub P S754_nan) with S754_nan by (destruct P; reflexivity).
  rewrite payoff_loop_exit by reflexivity. reflexivity.
Qed.

End MoreBinary64.

Section MoreRuns.

#[local] Existing Instance binary64.

Import Binary64.

(** The theorems of this section and of the two before on runs of the
    module. *)

Lemma remaining_payments_counts_positive_balances_witness :
  remaining_payments 2 (round_int 1000) (decimal 5 1) (PInt 900) 1 = Ret 2 /\
  0 <= 2 <= Z.of_nat 2 /\
  (exists b, balance_after (decimal 5 1) (PInt 900) 1 (round_int 1000)
               (Z.to_nat 2) = Ret b /\ float_gt_int b 0 = false) /\
  forall i, (i < Z.to_nat 2)%nat ->
    exists bi, balance_after (decimal 5 1) (PInt 900) 1 (round_int 1000) i
               = Ret bi /\ float_gt_int bi 0 = true.
Proof.
  assert (Hrun : remaining_payments 2 (round_int 1000) (decimal 5 1)
                   (PInt 900) 1 = Ret 2) by (vm_compute; reflexivity).
  split; [exact Hrun |].
  apply (remaining_payments_counts_positive_balances (PF := binary64) 2
           (round_int 1000) (decimal 5 1) (PInt 900) 1 2 Hrun).
Defined.

Lemma parse_args_returns_valid_namespace_witness :
  parse_args (fun _ => Ret scenario_args) [] [] = Ret scenario_args /\
  float_lt_int (mortgage_amount scenario_args) 0 = false /\
  int_le_float 0 (annual_interest_rate scenario_args) = true /\
  float_le_int (annual_interest_rate scenario_args) 1 = true /\
  1 <= years scenario_args /\
  0 <= num_annual_payments scenario_args /\
  target_payment_negative (target_payment scenario_args) = false.
Proof.
  assert (Hparse : parse_args (fun _ => Ret scenario_args) [] []
                   = Ret scenario_args) by (vm_compute; reflexivity).
  split; [exact Hparse |].
  apply (parse_args_returns_valid_namespace (PF := binary64)
           (fun _ => Ret scenario_args) [] [] scenario_args Hparse).
Defined.

Lemma get_min_payment_nonfinite_principal_witness :
  is_finite S754_nan = false /\
  exists e, get_min_payment S754_nan (decimal 5 1) 2 1 = Raise e.
Proof.
  split; [reflexivity |].
  apply (get_min_payment_nonfinite_principal correctly_rounded S754_nan
           (decimal 5 1) 2 1).
  reflexivity.
Defined.

Lemma nan_target_reports_one_payment_witness :
  get_min_payment (round_int 1000) (decimal 5 1) 2 1 = Ret 900 /\
  float_gt_int (round_int 1000) 0 = true /\
  main 1 (round_int 1000) (decimal 5 1) 2 1 (Some S754_nan) =
    ([Print (MinimumPayment 900);
      Call_remaining_payments (round_int 1000) (decimal 5 1)
        (PFloat S754_nan) 1;
      Print (Payoff (PFloat S754_nan) 1)], Ret tt).
Proof.
  assert (Hmin : get_min_payment (round_int 1000) (decimal 5 1) 2 1
                 = Ret 900) by (vm_compute; reflexivity).
  assert (Hpos : float_gt_int (round_int 1000) 0 = true)
    by (vm_compute; reflexivity).
  split; [exact Hmin | split; [exact Hpos |]].
  apply (proj2 (nan_target_reports_one_payment correctly_rounded 0
                  (round_int 1000)
                  (decimal 5 1) 2 1 900 Hmin Hpos)).
Defined.

End MoreRuns.

(** ** In exact arithmetic *)

Section MoreExact.

#[local] Existing Instance exact.

Local Open Scope Q_scope.

Lemma payoff_loop_result_from_counter r t F fuel :
  forall b p k, payoff_loop r t F fuel b p = Ret k -> (p <= k)%Z.
Proof.
  induction fuel as [| fuel IH]; intros b p k Hrun.
  - destruct (float_gt_int (PF := exact) b 0) eqn:Hb.
    + rewrite payoff_loop_stuck in Hrun by assumption. discriminate.
    + rewrite payoff_loop_exit in Hrun by assumption. injection Hrun as <-. lia.
  - destruct (float_gt_int (PF := exact) b 0) eqn:Hb.
    + rewrite payoff_loop_body in Hrun by assumption.
      destruct (payoff_step r t F b) as [b' | e | ]; simpl in Hrun;
        try discriminate.
      apply IH in Hrun. lia.
    + rewrite payoff_loop_exit in Hrun by assumption. injection Hrun as <-. lia.
Qed.

(** A larger payment against a smaller balance is done no later. *)
Lemma payoff_loop_monotone r t1 t2 F :
  (1 <= F)%Z -> 0 <= r -> Exact.value t1 <= Exact.value t2 ->
  forall fuel b1 b2 p k1,
    b2 <= b1 ->
    payoff_loop r t1 F fuel b1 p = Ret k1 ->
    exists k2, payoff_loop r t2 F fuel b2 p = Ret k2 /\ (p <= k2 <= k1)%Z.
Proof.
  intros HF Hr Ht.
  pose proof (periodic_rate_nonneg r F HF Hr) as Hrho.
  induction fuel as [| fuel IH]; intros b1 b2 p k1 Hb Hrun.
  - destruct (float_gt_int (PF := exact) b1 0) eqn:Hb1.
    + rewrite payoff_loop_stuck in Hrun by assumption. discriminate.
    + rewrite payoff_loop_exit in Hrun by assumption. injection Hrun as <-.
      exists p. split; [| lia]. apply payoff_loop_exit.
      apply gt_int_0_false. apply gt_int_0_false in Hb1. lra.
  - pose proof (payoff_loop_result_from_counter _ _ _ _ _ _ _ Hrun) as Hpk.
    destruct (float_gt_int (PF := exact) b2 0) eqn:Hb2.
    + assert (Hb1 : float_gt_int (PF := exact) b1 0 = true).
      { apply gt_int_0. apply gt_int_0 in Hb2. lra. }
      rewrite payoff_loop_body in Hrun by assumption.
      rewrite payoff_step_exact in Hrun by assumption. cbn [bind] in Hrun.
      rewrite payoff_loop_body by assumption.
      rewrite payoff_step_exact by assumption. cbn [bind].
      set (rho := r / inject_Z F) in *.
      destruct (IH (b1 - (Exact.value t1 - b1 * rho))
                   (b2 - (Exact.value t2 - b2 * rho)) (p + 1)%Z k1)
        as (k2 & Hrun2 & Hk2); [| assumption |].
      { assert (0 <= (b1 - b2) * rho) by (apply Qmult_le_0_compat; lra).
        lra. }
      exists k2. split; [assumption | lia].
    + exists p. split; [apply payoff_loop_exit; assumption | lia].
Qed.

(** X7.  In exact arithmetic, for a rate [r >= 0] and [F >= 1]: if a target
    payment pays the balance off in [k1] payments, a target payment that is
    at least as large pays it off in at most [k1] payments. *)
Theorem exact_larger_payment_no_later (fuel : nat) (B r : Q)
    (t1 t2 : pynum Q) (F k1 : Z) :
  (1 <= F)%Z -> 0 <= r -> Exact.value t1 <= Exact.value t2 ->
  remaining_payments fuel B r t1 F = Ret k1 ->
  exists k2, remaining_payments fuel B r t2 F = Ret k2 /\ (0 <= k2 <= k1)%Z.
Proof.
  intros HF Hr Ht Hrun.
  apply (payoff_loop_monotone r t1 t2 F HF Hr Ht fuel B B 0%Z k1);
    [apply Qle_refl | exact Hrun].
Qed.

(** Each payment lowers the balance by at most the payment. *)
Lemma payoff_loop_total_paid r t F :
  (1 <= F)%Z -> 0 <= r ->
  forall fuel b p k,
    payoff_loop r t F fuel b p = Ret k ->
    b <= inject_Z (k - p) * Exact.value t.
Proof.
  intros HF Hr.
  pose proof (periodic_rate_nonneg r F HF Hr) as Hrho.
  induction fuel as [| fuel IH]; intros b p k Hrun.
  - destruct (float_gt_int (PF := exact) b 0) eqn:Hb.
    + rewrite payoff_loop_stuck in Hrun by assumption. discriminate.
    + rewrite payoff_loop_exit in Hrun by assumption. injection Hrun as <-.
      apply gt_int_0_false in Hb. rewrite Z.sub_diag.
      change (inject_Z 0) with 0. lra.
  - destruct (float_gt_int (PF := exact) b 0) eqn:Hb.
    + rewrite payoff_loop_body in Hrun by assumption.
      rewrite payoff_step_exact in Hrun by assumption. cbn [bind] in Hrun.
      apply IH in Hrun. apply gt_int_0 in Hb.
      set (rho := r / inject_Z F) in *.
      replace (k - p)%Z with (k - (p + 1) + 1)%Z by lia.
      rewrite inject_Z_plus. change (inject_Z 1) with 1.
      assert (0 <= b * rho) by (apply Qmult_le_0_compat; lra).
      lra.
    + rewrite payoff_loop_exit in Hrun by assumption. injection Hrun as <-.
      apply gt_int_0_false in Hb. rewrite Z.sub_diag.
      change (inject_Z 0) with 0. lra.
Qed.

(** X8.  In exact arithmetic, for a rate [r >= 0] and [F >= 1]: the payments
    counted by [remaining_payments] add up to at least the starting balance,
    [k * target_payment >= B]. *)
Theorem exact_payments_cover_balance (fuel : nat) (B r : Q) (t : pynum Q)
    (F k : Z) :
  (1 <= F)%Z -> 0 <= r ->
  remaining_payments fuel B r t F = Ret k ->
  B <= inject_Z k * Exact.value t.
Proof.
  intros HF Hr Hrun.
  pose proof (payoff_loop_total_paid r t F HF Hr fuel B 0%Z k Hrun) as H.
  rewrite Z.sub_0_r in H. exact H.
Qed.

(** A balance that the level payment [A] retires in exactly [j] periods. *)
Lemma payoff_loop_exactly r t F A (j : nat) :
  (1 <= F)%Z -> 0 < r -> 0 < A -> Exact.value t == A ->
  forall b p,
    b * (r / inject_Z F) * (1 + r / inject_Z F) ^ Z.of_nat j
      == A * ((1 + r / inject_Z F) ^ Z.of_nat j - 1) ->
    forall fuel, (j <= fuel)%nat ->
      payoff_loop r t F fuel b p = Ret (p + Z.of_nat j)%Z.
Proof.
  intros HF Hr HA Ht.
  pose proof (periodic_rate_positive r F HF Hr) as Hrho.
  set (rho := r / inject_Z F) in *.
  induction j as [| j IH]; intros b p Hb fuel Hfuel.
  - rewrite Z.add_0_r. apply payoff_loop_exit. apply gt_int_0_false.
    change ((1 + rho) ^ Z.of_nat 0) with 1 in Hb. nra.
  - rewrite Qpower_succ in Hb.
    assert (Hy : 1 <= (1 + rho) ^ Z.of_nat j)
      by (apply Qpower_1_le; [lra | lia]).
    set (y := (1 + rho) ^ Z.of_nat j) in *.
    assert (Hpos : 0 < b).
    { assert (H1 : 0 < A * ((1 + rho) * y - 1)) by (apply Qmult_lt_0_compat; nra).
      assert (H2 : 0 < rho * ((1 + rho) * y)) by (apply Qmult_lt_0_compat; nra).
      destruct (Qlt_le_dec 0 b) as [| Hle]; [assumption |].
      assert (0 <= (- b) * (rho * ((1 + rho) * y)))
        by (apply Qmult_le_0_compat; lra).
      nra. }
    destruct fuel as [| fuel]; [lia |].
    rewrite payoff_loop_body by (apply gt_int_0; assumption).
    rewrite payoff_step_exact by assumption. cbn [bind]. fold rho.
    rewrite (IH (b - (Exact.value t - b * rho)) (p + 1)%Z); [f_equal; lia | | lia].
    rewrite Ht. nra.
Qed.

(** X9.  In exact arithmetic, for [P > 0], [r > 0], [T >= 1] and [F >= 1]:
    with the annuity of [get_min_payment] before rounding as target payment,
    [remaining_payments] returns exactly [T * F]. *)
Lemma annuity_positive (P r : Q) (T F : Z) :
  0 < P -> 0 < r -> (1 <= T)%Z -> (1 <= F)%Z -> 0 < Exact.annuity P r T F.
Proof.
  intros HP Hr HT HF.
  pose proof (annuity_equation P r T F HT HF Hr) as Heq.
  pose proof (growth_above_one r T F HT HF Hr) as Hq.
  pose proof (periodic_rate_positive r F HF Hr) as Hrho.
  change (inject_Z 1) with 1 in Hq.
  set (A := Exact.annuity P r T F) in *.
  set (q := (1 + r / inject_Z F) ^ (T * F)) in *.
  assert (0 < P * (r / inject_Z F) * q).
  { apply Qmult_lt_0_compat; [apply Qmult_lt_0_compat; assumption | lra]. }
  destruct (Qlt_le_dec 0 A) as [| Hle]; [assumption |].
  assert (0 <= (- A) * (q - 1)) by (apply Qmult_le_0_compat; lra).
  nra.
Qed.

Theorem exact_annuity_pays_off_at_term (P r : Q) (T F : Z) :
  0 < P -> 0 < r -> (1 <= T)%Z -> (1 <= F)%Z ->
  forall fuel, (Z.to_nat (T * F) <= fuel)%nat ->
    remaining_payments fuel P r (PFloat (Exact.annuity P r T F)) F
    = Ret (T * F)%Z.
Proof.
  intros HP Hr HT HF fuel Hfuel.
  pose proof (annuity_equation P r T F HT HF Hr) as Heq.
  pose proof (growth_above_one r T F HT HF Hr) as Hq.
  pose proof (periodic_rate_positive r F HF Hr) as Hrho.
  change (inject_Z 1) with 1 in Hq.
  pose proof (annuity_positive P r T F HP Hr HT HF) as HA.
  unfold remaining_payments.
  rewrite (payoff_loop_exactly r (PFloat (Exact.annuity P r T F)) F
             (Exact.annuity P r T F) (Z.to_nat (T * F)) HF Hr HA
             (Qeq_refl _) P 0%Z).
  - f_equal. rewrite Z2Nat.id by nia. reflexivity.
  - rewrite Z2Nat.id by nia. rewrite Heq. reflexivity.
  - assumption.
Qed.

(** A payment below the level payment [A] leaves a positive balance after
    [j] more periods. *)
Lemma payoff_loop_too_slow r t F A :
  (1 <= F)%Z -> 0 < r -> 0 < A -> Exact.value t < A ->
  forall (j : nat) fuel b p k,
    A * ((1 + r / inject_Z F) ^ Z.of_nat j - 1)
      <= b * (r / inject_Z F) * (1 + r / inject_Z F) ^ Z.of_nat j ->
    0 < b ->
    payoff_loop r t F fuel b p = Ret k -> (p + Z.of_nat j < k)%Z.
Proof.
  intros HF Hr HA Ht.
  pose proof (periodic_rate_positive r F HF Hr) as Hrho.
  set (rho := r / inject_Z F) in *.
  induction j as [| j IH]; intros fuel b p k Hb Hpos Hrun.
  - destruct fuel as [| fuel].
    + rewrite payoff_loop_stuck in Hrun by (apply gt_int_0; assumption).
      discriminate.
    + rewrite payoff_loop_body in Hrun by (apply gt_int_0; assumption).
      rewrite payoff_step_exact in Hrun by assumption. cbn [bind] in Hrun.
      apply payoff_loop_result_from_counter in Hrun. lia.
  - destruct fuel as [| fuel].
    + rewrite payoff_loop_stuck in Hrun by (apply gt_int_0; assumption).
      discriminate.
    + rewrite payoff_loop_body in Hrun by (apply gt_int_0; assumption).
      rewrite payoff_step_exact in Hrun by assumption. cbn [bind] in Hrun.
      fold rho in Hrun. rewrite Qpower_succ in Hb.
      assert (Hy : 1 <= (1 + rho) ^ Z.of_nat j)
        by (apply Qpower_1_le; [lra | lia]).
      set (y := (1 + rho) ^ Z.of_nat j) in *.
      assert (Hty : 0 < (A - Exact.value t) * (rho * y)).
      { apply Qmult_lt_0_compat; [lra |]. apply Qmult_lt_0_compat; lra. }
      set (b' := b - (Exact.value t - b * rho)) in *.
      assert (Hstrict : A * (y - 1) < b' * rho * y)
        by (unfold b'; nra).
      assert (Hinv : A * (y - 1) <= b' * rho * y) by lra.
      assert (Hpos' : 0 < b').
      { destruct (Qlt_le_dec 0 b') as [| Hle]; [assumption |].
        assert (0 <= A * (y - 1)) by (apply Qmult_le_0_compat; lra).
        assert (0 <= (- b') * (rho * y)).
        { apply Qmult_le_0_compat; [lra |]. apply Qlt_le_weak.
          apply Qmult_lt_0_compat; lra. }
        lra. }
      apply (IH fuel _ (p + 1)%Z k Hinv Hpos') in Hrun. lia.
Qed.
(** X10.  In exact arithmetic, for [P > 0], [r > 0], [T >= 1] and [F >= 1]:
    the payment [m] returned by [get_min_payment] is the least integer that
    retires the loan within the term, since an integer payment below [m]
    needs more than [T * F] payments whenever it pays the loan off at all. *)
Theorem exact_payment_below_minimum_too_slow (fuel : nat) (P r : Q)
    (T F m a k : Z) :
  0 < P -> 0 < r -> (1 <= T)%Z -> (1 <= F)%Z ->
  get_min_payment P r T F = Ret m -> (a < m)%Z ->
  remaining_payments fuel P r (PInt a) F = Ret k ->
  (T * F < k)%Z.
Proof.
  intros HP Hr HT HF Hmin Ha Hrun.
  rewrite get_min_payment_exact in Hmin by assumption.
  injection Hmin as Hm.
  pose proof (annuity_positive P r T F HP Hr HT HF) as HA.
  pose proof (annuity_equation P r T F HT HF Hr) as Heq.
  pose proof (Qceiling_lt (Exact.annuity P r T F)) as Hlt.
  rewrite Hm in Hlt.
  assert (Hbelow : Exact.value (PInt a) < Exact.annuity P r T F).
  { cbn [Exact.value].
    apply Qle_lt_trans with (y := inject_Z (m - 1)); [| exact Hlt].
    rewrite <- Zle_Qle. lia. }
  unfold remaining_payments in Hrun.
  pose proof (payoff_loop_too_slow r (PInt a) F (Exact.annuity P r T F)
                HF Hr HA Hbelow (Z.to_nat (T * F)) fuel P 0%Z k) as Hslow.
  rewrite Z2Nat.id in Hslow by nia.
  apply Hslow; [rewrite Heq; apply Qle_refl | assumption | assumption].
Qed.

(** The theorems of this section on a loan of 1000 at rate 1/2 over 2 years
    with one payment a year (minimum payment 900). *)

Lemma exact_min_payment_repays_principal_witness :
  0 <= 1000 /\ 0 < 1 # 2 /\ 1 # 2 <= 1 /\ (1 <= 2)%Z /\ (1 <= 1)%Z /\
  get_min_payment (1000 : Q) (1 # 2) 2 1 = Ret 900%Z /\
  1000 <= inject_Z (900 * (2 * 1)).
Proof.
  assert (Hmin : get_min_payment (1000 : Q) (1 # 2) 2 1 = Ret 900%Z)
    by (vm_compute; reflexivity).
  repeat (split; [first [exact Hmin | lra | lia] |]).
  apply (exact_min_payment_repays_principal 1000 (1 # 2) 2 1 900);
    first [exact Hmin | lra | lia].
Defined.

Lemma exact_larger_payment_no_later_witness :
  (1 <= 1)%Z /\ 0 <= 1 # 2 /\
  Exact.value (PInt 900) <= Exact.value (PInt 1000) /\
  remaining_payments 2 (1000 : Q) (1 # 2) (PInt 900) 1 = Ret 2%Z /\
  exists k2, remaining_payments 2 (1000 : Q) (1 # 2) (PInt 1000) 1 = Ret k2 /\
             (0 <= k2 <= 2)%Z.
Proof.
  assert (Hrun : remaining_payments 2 (1000 : Q) (1 # 2) (PInt 900) 1
                 = Ret 2%Z) by (vm_compute; reflexivity).
  assert (Ht : Exact.value (PInt 900) <= Exact.value (PInt 1000))
    by (vm_compute; discriminate).
  repeat (split; [first [exact Hrun | exact Ht | lra | lia] |]).
  apply (exact_larger_payment_no_later 2 1000 (1 # 2) (PInt 900) (PInt 1000)
           1 2); first [exact Hrun | exact Ht | lra | lia].
Defined.

Lemma exact_payments_cover_balance_witness :
  (1 <= 1)%Z /\ 0 <= 1 # 2 /\
  remaining_payments 2 (1000 : Q) (1 # 2) (PInt 900) 1 = Ret 2%Z /\
  1000 <= inject_Z 2 * Exact.value (PInt 900).
Proof.
  assert (Hrun : remaining_payments 2 (1000 : Q) (1 # 2) (PInt 900) 1
                 = Ret 2%Z) by (vm_compute; reflexivity).
  repeat (split; [first [exact Hrun | lra | lia] |]).
  apply (exact_payments_cover_balance 2 1000 (1 # 2) (PInt 900) 1 2);
    first [exact Hrun | lra | lia].
Defined.

Lemma exact_annuity_pays_off_at_term_witness :
  0 < 1000 /\ 0 < 1 # 2 /\ (1 <= 2)%Z /\ (1 <= 1)%Z /\
  (Z.to_nat (2 * 1) <= 2)%nat /\
  remaining_payments 2 (1000 : Q) (1 # 2)
    (PFloat (Exact.annuity 1000 (1 # 2) 2 1)) 1 = Ret (2 * 1)%Z.
Proof.
  repeat (split; [first [lra | lia] |]).
  apply (exact_annuity_pays_off_at_term 1000 (1 # 2) 2 1);
    first [lra | lia].
Defined.

Lemma exact_payment_below_minimum_too_slow_witness :
  0 < 1000 /\ 0 < 1 # 2 /\ (1 <= 2)%Z /\ (1 <= 1)%Z /\
  get_min_payment (1000 : Q) (1 # 2) 2 1 = Ret 900%Z /\ (899 < 900)%Z /\
  remaining_payments 3 (1000 : Q) (1 # 2) (PInt 899) 1 = Ret 3%Z /\
  (2 * 1 < 3)%Z.
Proof.
  assert (Hmin : get_min_payment (1000 : Q) (1 # 2) 2 1 = Ret 900%Z)
    by (vm_compute; reflexivity).
  assert (Hrun : remaining_payments 3 (1000 : Q) (1 # 2) (PInt 899) 1
                 = Ret 3%Z) by (vm_compute; reflexivity).
  repeat (split; [first [exact Hmin | exact Hrun | lra | lia] |]).
  apply (exact_payment_below_minimum_too_slow 3 1000 (1 # 2) 2 1 900 899 3);
    first [exact Hmin | exact Hrun | lra | lia].
Defined.

End MoreExact.
